(** * Poverty & Millionaire Analytics Dashboard (src/app6.py)

    A shallow embedding of the tabular pipeline of the dashboard script:
    numeric coercion, row dropping, the two derived ratios, the state-code
    join, the per-state aggregation of tab 1, the map view gate of tab 2 and
    the ranked poverty-rate table of tab 3.

    The pandas values are modelled as follows.
    - A numeric cell is an IEEE-754 binary64 number (Rocq's primitive
      [float]); the missing value is the float NaN, as in a pandas float
      column.  Integer columns are read as the floats they convert to when
      the script divides them.
    - A text cell is a [string] (bytes; bytewise order agrees with Python's
      code-point order on UTF-8 text).
    - A row is a finite map from column name to cell, a table a list of
      rows labelled by the index that [read_csv] gives them. *)

From Stdlib Require Import ZArith Floats OrdersEx Sorting.Sorted.
From stdpp Require Import gmap strings list sorting.

(** ** Binary64 numbers *)

Module F64.

Definition zero : float := 0%float.


(** [x <= y] on numbers that are not NaN. *)
Definition le (x y : float) : Prop := PrimFloat.leb x y = true.

End F64.

(** ** Cells, rows and tables *)

(** A cell of a table: a number (NaN is pandas' missing value) or text. *)
Inductive cell : Type :=
  | Num (x : float)
  | Str (s : string).

Definition NaN : cell := Num nan.

(** [pd.isna] on one cell. *)
Definition isna (c : cell) : bool :=
  match c with
  | Num x => is_nan x
  | Str _ => false
  end.

(** Equality of two cells as pandas' hash tables decide it ([isin],
    [drop_duplicates], [groupby]): [==], with NaN equal to NaN. *)
Definition cell_eqb (a b : cell) : bool :=
  match a, b with
  | Num x, Num y => PrimFloat.eqb x y || (is_nan x && is_nan y)
  | Str s, Str t => String.eqb s t
  | _, _ => false
  end.

(** The order in which keys are sorted: numbers by [<=], text by code
    point, numbers before text when a column mixes both. *)
Definition cell_leb (a b : cell) : bool :=
  match a, b with
  | Num x, Num y => PrimFloat.leb x y
  | Num _, Str _ => true
  | Str _, Num _ => false
  | Str s, Str t => String.leb s t
  end.

Definition cell_lt (a b : cell) : Prop :=
  cell_leb a b = true /\ cell_eqb a b = false.

(** True division of two numeric cells, [a / b] on float64 values. The
    script only divides columns that went through [to_numeric]. *)
Definition cell_div (a b : cell) : cell :=
  match a, b with
  | Num x, Num y => Num (x / y)
  | _, _ => NaN
  end.

Abbreviation row := (gmap string cell).

(** [r[col]]; a column the row does not have reads as missing. *)
Definition get (r : row) (col : string) : cell := default NaN (r !! col).

(** A DataFrame: its rows in order, each with its index label. *)
Abbreviation DataFrame := (list (nat * row)).

Definition index (df : DataFrame) : list nat := List.map fst df.

(** [pd.read_csv] / [pd.read_excel]: the rows get the labels 0, 1, 2, ... *)
Definition read_table (rows : list row) : DataFrame :=
  imap (fun i r => (i, r)) rows.

(** [df.empty] for a frame that has columns. *)
Definition empty (df : DataFrame) : bool :=
  match df with
  | [] => true
  | _ :: _ => false
  end.

(** [df[col] = f(row)], row by row. *)
Definition assign (col : string) (f : row -> cell) (df : DataFrame) : DataFrame :=
  List.map (fun ir => (ir.1, <[col := f ir.2]> ir.2)) df.

(** [df.dropna(subset=cols)]. *)
Definition complete (cols : list string) (r : row) : bool :=
  forallb (fun c => negb (isna (get r c))) cols.

Definition dropna (cols : list string) (df : DataFrame) : DataFrame :=
  List.filter (fun ir => complete cols ir.2) df.

(** [df[cols]]: the frame restricted to the listed columns (a name listed
    twice still selects a single column here). *)
Definition select (cols : list string) (df : DataFrame) : DataFrame :=
  List.map (fun ir => (ir.1, filter (fun kv => kv.1 ∈ cols) ir.2)) df.

(** Two rows agree on every column of [cols]. *)
Definition row_eqb (cols : list string) (r r' : row) : bool :=
  forallb (fun c => cell_eqb (get r c) (get r' c)) cols.

(** [df.drop_duplicates()] on a frame whose columns are [cols]: a row is
    kept unless an earlier row agrees with it on every column. *)
Fixpoint drop_duplicates_from (cols : list string) (seen : list row)
    (df : DataFrame) : DataFrame :=
  match df with
  | [] => []
  | ir :: rest =>
      if existsb (row_eqb cols ir.2) seen
      then drop_duplicates_from cols seen rest
      else ir :: drop_duplicates_from cols (ir.2 :: seen) rest
  end.

Definition drop_duplicates (cols : list string) (df : DataFrame) : DataFrame :=
  drop_duplicates_from cols [] df.

(** Ascending sort by a key that keeps equal keys in their order (the
    order-preserving insertion sort numpy applies to short runs). *)
Section StableSort.
Context {A : Type} (key : A -> cell).

Fixpoint insert_sorted (x : A) (l : list A) : list A :=
  match l with
  | [] => [x]
  | h :: t =>
      if cell_leb (key x) (key h) then x :: h :: t
      else h :: insert_sorted x t
  end.

Definition stable_sort (l : list A) : list A :=
  List.fold_right insert_sorted [] l.
End StableSort.

(** [df.sort_values(col, ascending=False)], as pandas' [nargsort] does it:
    the rows with a missing key are set aside and put last; the others are
    reversed, sorted ascending, and reversed again. *)
Definition sort_values_desc (col : string) (df : DataFrame) : DataFrame :=
  let key (ir : nat * row) := get ir.2 col in
  let non_nans := List.filter (fun ir => negb (isna (key ir))) df in
  let nans := List.filter (fun ir => isna (key ir)) df in
  rev (stable_sort key (rev non_nans)) ++ nans.

(** ** Column mapping (sidebar) *)

Record Mapping : Type := {
  state_col : string;
  population_col : string;
  poverty_col : string;
  millionaire_col : string
}.

(** [cols.index(name)], when [name in cols]. *)
Fixpoint list_index (name : string) (cols : list string) : option nat :=
  match cols with
  | [] => None
  | c :: rest =>
      if String.eqb c name then Some 0 else S <$> list_index name rest
  end.

(** [default_index(name, cols)]: the position of [name], or 0. *)
Definition default_index (name : string) (cols : list string) : nat :=
  default 0 (list_index name cols).

(** ** Basic cleaning / conversions (lines 85-93) *)

Section Cleaning.
(** The text-to-number conversion inside [pd.to_numeric]: [None] when the
    text is not a number. *)
Variable parse_number : string -> option float.

(** [pd.to_numeric(..., errors="coerce")] on one cell. *)
Definition to_numeric (c : cell) : cell :=
  match c with
  | Num x => Num x
  | Str s =>
      match parse_number s with
      | Some x => Num x
      | None => NaN
      end
  end.

Definition coerce (col : string) (df : DataFrame) : DataFrame :=
  assign col (fun r => to_numeric (get r col)) df.

(** The loop over [population_col, poverty_col, millionaire_col]. *)
Definition numeric_conversions (m : Mapping) (df : DataFrame) : DataFrame :=
  List.fold_left (fun d col => coerce col d)
    [population_col m; poverty_col m; millionaire_col m] df.

Definition df_clean (m : Mapping) (df : DataFrame) : DataFrame :=
  let d := dropna [state_col m; population_col m; poverty_col m; millionaire_col m]
             (numeric_conversions m df) in
  let d := assign "Millionaire_Density"
             (fun r => cell_div (get r (millionaire_col m)) (get r (population_col m))) d in
  assign "Poverty_Rate"
    (fun r => cell_div (get r (poverty_col m)) (get r (population_col m))) d.
End Cleaning.

(** ** State name -> abbreviation mapping for the map (lines 98-116) *)

Definition us_states : list (string * string) := [
  ("Alabama", "AL"); ("Alaska", "AK"); ("Arizona", "AZ"); ("Arkansas", "AR");
  ("California", "CA"); ("Colorado", "CO"); ("Connecticut", "CT"); ("Delaware", "DE");
  ("Florida", "FL"); ("Georgia", "GA"); ("Hawaii", "HI"); ("Idaho", "ID");
  ("Illinois", "IL"); ("Indiana", "IN"); ("Iowa", "IA"); ("Kansas", "KS");
  ("Kentucky", "KY"); ("Louisiana", "LA"); ("Maine", "ME"); ("Maryland", "MD");
  ("Massachusetts", "MA"); ("Michigan", "MI"); ("Minnesota", "MN"); ("Mississippi", "MS");
  ("Missouri", "MO"); ("Montana", "MT"); ("Nebraska", "NE"); ("Nevada", "NV");
  ("New Hampshire", "NH"); ("New Jersey", "NJ"); ("New Mexico", "NM"); ("New York", "NY");
  ("North Carolina", "NC"); ("North Dakota", "ND"); ("Ohio", "OH"); ("Oklahoma", "OK");
  ("Oregon", "OR"); ("Pennsylvania", "PA"); ("Rhode Island", "RI");
  ("South Carolina", "SC"); ("South Dakota", "SD"); ("Tennessee", "TN"); ("Texas", "TX");
  ("Utah", "UT"); ("Vermont", "VT"); ("Virginia", "VA"); ("Washington", "WA");
  ("West Virginia", "WV"); ("Wisconsin", "WI"); ("Wyoming", "WY")
]%string.

(** The two spellings of the federal district that close the literal. *)
Definition district_names : list (string * string) := [
  ("District of Columbia", "DC"); ("D.C.", "DC")
]%string.

Definition STATE_ABBREV_items : list (string * string) :=
  us_states ++ district_names.

Definition STATE_ABBREV : gmap string string := list_to_map STATE_ABBREV_items.

#[global] Arguments STATE_ABBREV : simpl never.

(** [Series.map(d)] on one cell: the value under the key, missing when the
    cell is not a key of [d]. *)
Definition map_dict (d : gmap string string) (c : cell) : cell :=
  match c with
  | Str s =>
      match d !! s with
      | Some v => Str v
      | None => NaN
      end
  | Num _ => NaN
  end.

(** Line 115: [df_clean["state_code"] = df_clean[state_col].map(STATE_ABBREV)]. *)
Definition with_state_code (m : Mapping) (df : DataFrame) : DataFrame :=
  assign "state_code" (fun r => map_dict STATE_ABBREV (get r (state_col m))) df.

(** Line 116: [df_map], from the cleaned table that carries [state_code]. *)
Definition df_map (df : DataFrame) : DataFrame := dropna ["state_code"] df.

(** ** Tab 1: poverty vs millionaire population (lines 131-148) *)

(** [Series.isin(values)]. *)
Definition isin (values : list cell) (c : cell) : bool :=
  existsb (cell_eqb c) values.

(** [df_clean[df_clean[state_col].isin(selected_states)]]. *)
Definition subset (m : Mapping) (selected_states : list cell) (df : DataFrame) : DataFrame :=
  List.filter (fun ir => isin selected_states (get ir.2 (state_col m))) df.

(** One step of a sum that skips missing values. The summed columns hold
    numbers, since both went through [to_numeric]; text could only reach
    them through a role mapped to the column named [state_code], and is
    left out of the total here. *)
Definition nanadd (acc : float) (c : cell) : float :=
  match c with
  | Num x => if is_nan x then acc else (acc + x)%float
  | Str _ => acc
  end.

(** [sum()] of a column: 0 plus the values that are present, in row order. *)
Definition nansum (cells : list cell) : float :=
  List.fold_left nanadd cells F64.zero.

(** One group of the aggregation: its key and the two running totals. *)
Record Group : Type := {
  group_key : cell;
  poverty_sum : float;
  millionaire_sum : float
}.

(** Adds one row to the group of its key, opening the group when the key
    has not been seen. *)
Fixpoint add_to_group (k p q : cell) (groups : list Group) : list Group :=
  match groups with
  | [] => [{| group_key := k; poverty_sum := nanadd F64.zero p;
              millionaire_sum := nanadd F64.zero q |}]
  | g :: rest =>
      if cell_eqb (group_key g) k
      then {| group_key := group_key g; poverty_sum := nanadd (poverty_sum g) p;
              millionaire_sum := nanadd (millionaire_sum g) q |} :: rest
      else g :: add_to_group k p q rest
  end.

(** One row of the frame enters the aggregation; a row whose key is
    missing is left out. *)
Definition group_step (key c1 c2 : string) (groups : list Group)
    (ir : nat * row) : list Group :=
  if isna (get ir.2 key) then groups
  else add_to_group (get ir.2 key) (get ir.2 c1) (get ir.2 c2) groups.

Definition group_rows (key c1 c2 : string) (df : DataFrame) : list Group :=
  List.fold_left (group_step key c1 c2) df [].

(** [df.groupby(key)[[c1, c2]].sum()]: the groups come out sorted by key. *)
Definition groupby_sum (key c1 c2 : string) (df : DataFrame) : list Group :=
  stable_sort group_key (group_rows key c1 c2 df).

Definition grouped (m : Mapping) (selected_states : list cell) (df : DataFrame) : list Group :=
  groupby_sum (state_col m) (poverty_col m) (millionaire_col m)
    (subset m selected_states df).

Inductive Tab1 : Type :=
  | Tab1Warning (msg : string)
  | Tab1Chart (grouped : list Group).

Definition tab1 (m : Mapping) (selected_states : list cell) (df : DataFrame) : Tab1 :=
  match selected_states with
  | [] => Tab1Warning "Select at least one state to see the comparison."
  | _ :: _ => Tab1Chart (grouped m selected_states df)
  end.

(** ** Tab 2: millionaire density map (lines 187-214) *)

Definition head (n : nat) (df : DataFrame) : DataFrame := firstn n df.
Definition tail (n : nat) (df : DataFrame) : DataFrame := skipn (length df - n) df.

Inductive Tab2 : Type :=
  | Tab2Warning (msg : string)
  | Tab2Chart (locations top_states bottom_states : DataFrame).

Definition no_valid_states : string :=
  "No valid state codes found for the map. Make sure your state column uses full state names (e.g., 'California', 'Texas') that can be mapped to two-letter abbreviations.".

Definition tab2 (m : Mapping) (df_map : DataFrame) : Tab2 :=
  if empty df_map then Tab2Warning no_valid_states
  else
    let dens_sorted := sort_values_desc "Millionaire_Density" df_map in
    Tab2Chart df_map
      (select [state_col m; "Millionaire_Density"] (head 3 dens_sorted))
      (select [state_col m; "Millionaire_Density"] (tail 3 dens_sorted)).

(** ** Tab 3: poverty rate ranking (lines 251-274) *)

(** Line 257: the (state, rate) pairs, complete and without repeats. *)
Definition rate_rows (m : Mapping) (df : DataFrame) : DataFrame :=
  let cols := [state_col m; "Poverty_Rate"] in
  drop_duplicates cols (dropna cols (select cols df)).

(** Line 258: the ranked poverty-rate table. *)
Definition rate_df (m : Mapping) (df : DataFrame) : DataFrame :=
  sort_values_desc "Poverty_Rate" (rate_rows m df).

(** A frame as the tab lists it: state and rate, top to bottom. *)
Definition pairs (m : Mapping) (df : DataFrame) : list (cell * cell) :=
  List.map (fun ir => (get ir.2 (state_col m), get ir.2 "Poverty_Rate")) df.

Definition rate_display (m : Mapping) (df : DataFrame) : list (cell * cell) :=
  pairs m (rate_df m df).

(** Rows tied on the rate are in ascending order of the state name. *)
Definition ties_by_name (l : list (cell * cell)) : Prop :=
  StronglySorted
    (fun a b : cell * cell => cell_eqb a.2 b.2 = true -> cell_leb a.1 b.1 = true) l.

(** [df.take(indexer)]: the rows at the listed positions. A sort by one
    column computes its indexer from that column alone. *)
Definition take (indexer : list nat) (df : DataFrame) : DataFrame :=
  omap (fun i => df !! i) indexer.



(** ** The script from the upload to the three result tables *)

Section Script.
Variable parse_number : string -> option float.

(** The cleaned table as the tabs see it: line 115 has added its
    [state_code] column. *)
Definition cleaned (m : Mapping) (rows : list row) : DataFrame :=
  with_state_code m (df_clean parse_number m (read_table rows)).

Definition mapped_geo (m : Mapping) (rows : list row) : DataFrame :=
  df_map (cleaned m rows).

End Script.

(** ** Sample data *)

Definition std_mapping : Mapping :=
  {| state_col := "State"; population_col := "State Population";
     poverty_col := "Number in Poverty";
     millionaire_col := "Number of Millionaires" |}.

Definition mk_row (state : string) (population poverty millionaires : float) : row :=
  <["State" := Str state]>
    (<["State Population" := Num population]>
       (<["Number in Poverty" := Num poverty]>
          (<["Number of Millionaires" := Num millionaires]> ∅))).

(** A parser for the samples: unsigned decimal integers. *)
Fixpoint parse_digits (acc : Z) (s : string) : option Z :=
  match s with
  | EmptyString => Some acc
  | String a rest =>
      let n := Z.of_N (Ascii.N_of_ascii a) in
      if ((48 <=? n) && (n <=? 57))%Z then parse_digits (10 * acc + (n - 48)) rest
      else None
  end.

Definition parse_unsigned (s : string) : option float :=
  match s with
  | EmptyString => None
  | _ => (fun z => PrimFloat.of_uint63 (Uint63.of_Z z)) <$> parse_digits 0 s
  end.



(** ** The cleaning stage read row by row

    Every step of the stage works on one row at a time; these are the row
    functions the frame operations above apply. *)

Section RowLevel.
Variable parse_number : string -> option float.

(** The three [to_numeric] assignments on one row. *)
Definition convert_row (m : Mapping) (r : row) : row :=
  List.fold_left (fun r col => <[col := to_numeric parse_number (get r col)]> r)
    [population_col m; poverty_col m; millionaire_col m] r.

(** The columns [dropna] looks at. *)
Definition required (m : Mapping) : list string :=
  [state_col m; population_col m; poverty_col m; millionaire_col m].

(** The two derived columns of one row, assigned in the script's order. *)
Definition derive_row (m : Mapping) (r : row) : row :=
  let r := <["Millionaire_Density" :=
               cell_div (get r (millionaire_col m)) (get r (population_col m))]> r in
  <["Poverty_Rate" := cell_div (get r (poverty_col m)) (get r (population_col m))]> r.

(** A text cell that [to_numeric] cannot read as a number. *)
Definition coercion_fails (c : cell) : Prop :=
  exists s, c = Str s /\ parse_number s = None.
End RowLevel.

Definition derived_columns : list string :=
  ["Millionaire_Density"; "Poverty_Rate"].

(** No mapped column is itself named like one of the derived columns. *)
Definition fresh_derived (m : Mapping) : bool :=
  forallb (fun c => negb (existsb (String.eqb c) derived_columns)) (required m).

(** The state-code column of one row (line 115). *)
Definition code_row (m : Mapping) (r : row) : row :=
  <["state_code" := map_dict STATE_ABBREV (get r (state_col m))]> r.

(** Orders used to state that a list is sorted. *)
Definition key_le {A : Type} (key : A -> cell) (a b : A) : Prop :=
  cell_leb (key a) (key b) = true.

Definition present {A : Type} (key : A -> cell) (a : A) : Prop :=
  isna (key a) = false.

Definition key_ge (col : string) (a b : nat * row) : Prop :=
  cell_leb (get b.2 col) (get a.2 col) = true.

(** Rows that only carry a state and a poverty rate. *)
Definition rate_row (state : string) (rate : float) : row :=
  <["State" := Str state]> (<["Poverty_Rate" := Num rate]> ∅).


(** Two rows with the same rate, the later name first. *)
Definition tie_table : DataFrame :=
  read_table [rate_row "C" (30 / 100); rate_row "A" (30 / 100)].

(** The same two rows in the other order. *)
Definition tie_table_swapped : DataFrame :=
  read_table [rate_row "A" (30 / 100); rate_row "C" (30 / 100)].

(** A mapping whose population role points at a column named like a
    derived column, and a one-row table for it. *)
Definition clash_mapping : Mapping :=
  {| state_col := "State"; population_col := "Poverty_Rate";
     poverty_col := "Number in Poverty";
     millionaire_col := "Number of Millionaires" |}.

Definition clash_table : DataFrame :=
  [(0, <["State" := Str "Texas"]>
         (<["Poverty_Rate" := Num 2]>
            (<["Number in Poverty" := Num 8]>
               (<["Number of Millionaires" := Num 1]> ∅))))].


(** A row as a CSV column of text gives it: every cell is a string. *)
Definition raw_row (state population poverty millionaires : string) : row :=
  <["State" := Str state]>
    (<["State Population" := Str population]>
       (<["Number in Poverty" := Str poverty]>
          (<["Number of Millionaires" := Str millionaires]> ∅))).

(** The two-state scenario of the specification, with a second Texas row
    and a state the lookup table does not know. *)
Definition sample_rows : list row :=
  [mk_row "Texas" 1000 150 20; mk_row "Ohio" 500 100 5;
   mk_row "Texas" 7 5 1; mk_row "Atlantis" 10 1 1].

(** ** Sidebar defaults (lines 54-77) *)

(** [st.sidebar.selectbox(label, options, index)] before the user touches
    it: the option at [index]; an empty option list gives no value. *)
Definition selectbox (options : list string) (index : nat) : option string :=
  options !! index.

(** The four select boxes with their default guesses. *)
Definition default_mapping (all_cols : list string) : option Mapping :=
  match selectbox all_cols (default_index "State" all_cols),
        selectbox all_cols (default_index "State Population" all_cols),
        selectbox all_cols (default_index "Number in Poverty" all_cols),
        selectbox all_cols (default_index "Number of Millionaires" all_cols) with
  | Some s, Some p, Some v, Some n =>
      Some {| state_col := s; population_col := p;
              poverty_col := v; millionaire_col := n |}
  | _, _, _, _ => None
  end.

(** ** The state picker of tab 1 (lines 132-137) *)

(** [Series.unique()]: the values in order of first appearance. *)
Fixpoint unique_from (seen : list cell) (cells : list cell) : list cell :=
  match cells with
  | [] => []
  | c :: rest =>
      if existsb (cell_eqb c) seen then unique_from seen rest
      else c :: unique_from (c :: seen) rest
  end.

Definition unique (cells : list cell) : list cell := unique_from [] cells.

(** [sorted(values)] on state names. Python compares text with text only;
    the facts about the picker are stated for a state column of text. *)
Definition sorted (cells : list cell) : list cell :=
  stable_sort (fun c => c) cells.

Definition all_states (m : Mapping) (df : DataFrame) : list cell :=
  sorted (unique (List.map (fun ir => get ir.2 (state_col m)) df)).

(** The [default=] of the multiselect. *)
Definition default_states (m : Mapping) (df : DataFrame) : list cell :=
  let states := all_states m df in
  if 5 <=? length states then firstn 5 states else states.

(** Every state cell of the frame is text. *)
Definition text_states (m : Mapping) (df : DataFrame) : Prop :=
  forall ir, In ir df -> exists s, get ir.2 (state_col m) = Str s.

(** * Properties *)

(** ** Binary64 facts used by the pipeline *)

Module F64Facts.
Import F64.

Lemma SFcompare_refl (x : spec_float) :
  x <> S754_nan -> SFcompare x x = Some Eq.
Proof.
  destruct x as [[]|[]| |[] m e]; simpl; try congruence; intros _;
    rewrite Z.compare_refl, Pos.compare_cont_refl; reflexivity.
Qed.

Lemma SFcompare_antisym (x y : spec_float) :
  SFcompare y x = option_map CompOpp (SFcompare x y).
Proof.
  destruct x as [[]|[]| |[] m e], y as [[]|[]| |[] m' e']; simpl; try reflexivity;
    rewrite (Z.compare_antisym e' e);
    destruct (e' ?= e)%Z eqn:He; simpl; try reflexivity;
    rewrite (Pos.compare_cont_antisym m m' Eq); simpl;
    try rewrite CompOpp_involutive; reflexivity.
Qed.

Lemma SFcompare_none (x y : spec_float) :
  SFcompare x y = None <-> x = S754_nan \/ y = S754_nan.
Proof.
  destruct x as [[]|[]| |[] m e], y as [[]|[]| |[] m' e']; simpl;
    split; intros H; try reflexivity; try discriminate;
    try (left; reflexivity); try (right; reflexivity);
    destruct H; discriminate.
Qed.

Lemma is_nan_spec (x : float) :
  is_nan x = true <-> Prim2SF x = S754_nan.
Proof.
  unfold is_nan. rewrite FloatAxioms.eqb_spec. unfold SFeqb. split.
  - intros H. destruct (Prim2SF x) eqn:E; try reflexivity;
      rewrite SFcompare_refl in H by congruence; discriminate.
  - intros ->. reflexivity.
Qed.

Lemma is_nan_eq (x : float) : is_nan x = true -> x = nan.
Proof.
  intros H. apply Prim2SF_inj. apply is_nan_spec in H. rewrite H. reflexivity.
Qed.

Lemma not_nan_spec (x : float) :
  is_nan x = false <-> Prim2SF x <> S754_nan.
Proof.
  rewrite <- is_nan_spec. destruct (is_nan x); split; congruence.
Qed.

Lemma eqb_refl (x : float) : is_nan x = false -> PrimFloat.eqb x x = true.
Proof. unfold is_nan. destruct (PrimFloat.eqb x x); [reflexivity | discriminate]. Qed.

Lemma eqb_sym (x y : float) : PrimFloat.eqb x y = PrimFloat.eqb y x.
Proof.
  rewrite !FloatAxioms.eqb_spec. unfold SFeqb.
  rewrite (SFcompare_antisym (Prim2SF y) (Prim2SF x)).
  destruct (SFcompare (Prim2SF y) (Prim2SF x)) as [[]|]; reflexivity.
Qed.

Lemma eqb_not_nan (x y : float) :
  PrimFloat.eqb x y = true -> is_nan x = false /\ is_nan y = false.
Proof.
  rewrite FloatAxioms.eqb_spec, !not_nan_spec. unfold SFeqb. intros H.
  split; intros E; rewrite E in H; simpl in H;
    [| destruct (Prim2SF x)]; discriminate.
Qed.

Ltac split_compare :=
  repeat match goal with
    | H : context [Pos.compare_cont Eq ?a ?b] |- _ =>
        change (Pos.compare_cont Eq a b) with (Pos.compare a b) in H
    | |- context [Pos.compare_cont Eq ?a ?b] =>
        change (Pos.compare_cont Eq a b) with (Pos.compare a b)
    end;
  repeat match goal with
    | H : context [Z.compare ?a ?b] |- _ =>
        destruct (Z.compare_spec a b); simpl in H; try discriminate
    | H : context [Pos.compare ?a ?b] |- _ =>
        destruct (Pos.compare_spec a b); simpl in H; try discriminate
    | |- context [Z.compare ?a ?b] =>
        destruct (Z.compare_spec a b); simpl
    | |- context [Pos.compare ?a ?b] =>
        destruct (Pos.compare_spec a b); simpl
    end;
  subst; try reflexivity; try discriminate; try lia.

Lemma SFleb_trans (x y z : spec_float) :
  SFleb x y = true -> SFleb y z = true -> SFleb x z = true.
Proof.
  unfold SFleb.
  destruct x as [[]|[]| |[] m1 e1], y as [[]|[]| |[] m2 e2],
    z as [[]|[]| |[] m3 e3]; simpl; intros H1 H2;
    try reflexivity; try discriminate; split_compare.
Qed.

Lemma SFeqb_trans (x y z : spec_float) :
  SFeqb x y = true -> SFeqb y z = true -> SFeqb x z = true.
Proof.
  unfold SFeqb.
  destruct x as [[]|[]| |[] m1 e1], y as [[]|[]| |[] m2 e2],
    z as [[]|[]| |[] m3 e3]; simpl; intros H1 H2;
    try reflexivity; try discriminate; split_compare.
Qed.

Lemma eqb_trans (x y z : float) :
  PrimFloat.eqb x y = true -> PrimFloat.eqb y z = true -> PrimFloat.eqb x z = true.
Proof. rewrite !FloatAxioms.eqb_spec. apply SFeqb_trans. Qed.

Lemma leb_trans (x y z : float) : le x y -> le y z -> le x z.
Proof. unfold le. rewrite !FloatAxioms.leb_spec. apply SFleb_trans. Qed.

Lemma leb_total (x y : float) :
  is_nan x = false -> is_nan y = false -> le x y \/ le y x.
Proof.
  unfold le. rewrite !FloatAxioms.leb_spec, !not_nan_spec. unfold SFleb. intros Hx Hy.
  rewrite (SFcompare_antisym (Prim2SF x) (Prim2SF y)).
  destruct (SFcompare (Prim2SF x) (Prim2SF y)) as [[]|] eqn:E; simpl; auto.
  apply SFcompare_none in E. tauto.
Qed.

Lemma leb_not_nan (x y : float) :
  le x y -> is_nan x = false /\ is_nan y = false.
Proof.
  unfold le. rewrite FloatAxioms.leb_spec, !not_nan_spec. unfold SFleb. intros H.
  split; intros E; rewrite E in H; simpl in H;
    [| destruct (Prim2SF x)]; discriminate.
Qed.


Lemma leb_antisym (x y : float) : le x y -> le y x -> PrimFloat.eqb x y = true.
Proof.
  unfold le. rewrite FloatAxioms.eqb_spec, !FloatAxioms.leb_spec. unfold SFeqb, SFleb.
  rewrite (SFcompare_antisym (Prim2SF x) (Prim2SF y)).
  destruct (SFcompare _ _) as [[]|]; simpl; congruence.
Qed.





End F64Facts.

(** ** Cell equality and order *)

Lemma cell_eqb_refl (a : cell) : cell_eqb a a = true.
Proof.
  destruct a as [x|s]; simpl.
  - unfold is_nan. destruct (PrimFloat.eqb x x); reflexivity.
  - apply String.eqb_refl.
Qed.

Lemma cell_eqb_sym (a b : cell) : cell_eqb a b = cell_eqb b a.
Proof.
  destruct a as [x|s], b as [y|t]; simpl; try reflexivity.
  - rewrite (F64Facts.eqb_sym x y), (andb_comm (is_nan x)). reflexivity.
  - apply String.eqb_sym.
Qed.

Lemma cell_eqb_trans (a b c : cell) :
  cell_eqb a b = true -> cell_eqb b c = true -> cell_eqb a c = true.
Proof.
  destruct a as [x|s], b as [y|t], c as [z|u]; simpl; try discriminate.
  - intros H1 H2.
    apply orb_true_iff in H1 as [H1|H1], H2 as [H2|H2].
    + rewrite (F64Facts.eqb_trans x y z H1 H2). reflexivity.
    + apply F64Facts.eqb_not_nan in H1 as [_ H1].
      apply andb_true_iff in H2 as [H2 _]. congruence.
    + apply F64Facts.eqb_not_nan in H2 as [H2 _].
      apply andb_true_iff in H1 as [_ H1]. congruence.
    + apply andb_true_iff in H1 as [-> _], H2 as [_ ->].
      apply orb_true_r.
  - rewrite !String.eqb_eq. congruence.
Qed.

(** On cells that are present, [cell_eqb] is the [==] of the values. *)
Lemma cell_eqb_isna (a b : cell) :
  cell_eqb a b = true -> isna a = isna b.
Proof.
  destruct a as [x|s], b as [y|t]; simpl; try discriminate; try reflexivity.
  intros [H|H]%orb_true_iff.
  - apply F64Facts.eqb_not_nan in H as [-> ->]. reflexivity.
  - apply andb_true_iff in H as [-> ->]. reflexivity.
Qed.

Lemma string_compare_lt_trans (s1 s2 s3 : string) :
  String.compare s1 s2 = Lt -> String.compare s2 s3 = Lt ->
  String.compare s1 s3 = Lt.
Proof.
  revert s2 s3. induction s1 as [|a s1 IH]; intros [|b s2] [|c s3]; simpl;
    try discriminate; try reflexivity.
  unfold Ascii.compare.
  destruct (N.compare_spec (Ascii.N_of_ascii a) (Ascii.N_of_ascii b)) as [E1|L1|G1];
    try discriminate;
    destruct (N.compare_spec (Ascii.N_of_ascii b) (Ascii.N_of_ascii c)) as [E2|L2|G2];
    try discriminate; intros H1 H2.
  - rewrite E1, E2, N.compare_refl. eauto.
  - rewrite E1. apply N.compare_lt_iff in L2. rewrite L2. reflexivity.
  - rewrite <- E2. apply N.compare_lt_iff in L1. rewrite L1. reflexivity.
  - assert (L : (Ascii.N_of_ascii a < Ascii.N_of_ascii c)%N) by lia.
    apply N.compare_lt_iff in L. rewrite L. reflexivity.
Qed.

Lemma string_compare_refl (s : string) : String.compare s s = Eq.
Proof.
  pose proof (String.compare_antisym s s) as A.
  destruct (String.compare s s); simpl in A; congruence.
Qed.

Lemma string_leb_spec (s t : string) :
  String.leb s t = true <-> String.compare s t = Lt \/ s = t.
Proof.
  unfold String.leb. destruct (String.compare s t) eqn:E; split; auto;
    try discriminate.
  - intros _. right. apply String.compare_eq_iff, E.
  - intros [H| ->]; [discriminate|].
    rewrite string_compare_refl in E. discriminate.
Qed.

Lemma string_leb_trans (s t u : string) :
  String.leb s t = true -> String.leb t u = true -> String.leb s u = true.
Proof.
  rewrite !string_leb_spec. intros [H1| ->] [H2| ->]; auto.
  left. eapply string_compare_lt_trans; eauto.
Qed.


Lemma cell_leb_trans (a b c : cell) :
  cell_leb a b = true -> cell_leb b c = true -> cell_leb a c = true.
Proof.
  destruct a as [x|s], b as [y|t], c as [z|u]; simpl; try discriminate; auto.
  - apply F64Facts.leb_trans.
  - apply string_leb_trans.
Qed.

Lemma cell_leb_total (a b : cell) :
  isna a = false -> isna b = false ->
  cell_leb a b = true \/ cell_leb b a = true.
Proof.
  destruct a as [x|s], b as [y|t]; simpl; auto.
  - apply F64Facts.leb_total.
  - intros _ _. apply String.leb_total.
Qed.


Lemma cell_leb_antisym (a b : cell) :
  cell_leb a b = true -> cell_leb b a = true -> cell_eqb a b = true.
Proof.
  destruct a as [x|s], b as [y|t]; simpl; try discriminate.
  - intros H1 H2. rewrite (F64Facts.leb_antisym x y H1 H2). reflexivity.
  - intros H1 H2. rewrite (String.leb_antisym s t H1 H2). apply String.eqb_refl.
Qed.

(** On text the strict cell order is the strict order of the strings. *)
Lemma cell_lt_Str (s t : string) :
  cell_lt (Str s) (Str t) <-> String.ltb s t = true.
Proof.
  unfold cell_lt, String.ltb. simpl. rewrite string_leb_spec. split.
  - intros [[H| ->] Hne].
    + rewrite H. reflexivity.
    + rewrite String.eqb_refl in Hne. discriminate.
  - destruct (String.compare s t) eqn:E; try discriminate. intros _. split; auto.
    apply String.eqb_neq. intros ->.
    rewrite string_compare_refl in E. discriminate.
Qed.

(** ** Rows and frames *)

Lemma get_insert (r : row) (c : string) (v : cell) : get (<[c := v]> r) c = v.
Proof. unfold get. rewrite lookup_insert_eq. reflexivity. Qed.

Lemma get_insert_ne (r : row) (c c' : string) (v : cell) :
  c <> c' -> get (<[c := v]> r) c' = get r c'.
Proof. intros H. unfold get. rewrite lookup_insert_ne by exact H. reflexivity. Qed.

Lemma get_select (cols : list string) (r : row) (c : string) :
  c ∈ cols -> get (filter (fun kv => kv.1 ∈ cols) r) c = get r c.
Proof.
  intros Hc. unfold get. destruct (r !! c) as [v|] eqn:E.
  - erewrite (map_lookup_filter_Some_2 _ r c v); eauto.
  - rewrite map_lookup_filter_None_2; auto.
Qed.

Lemma In_read_table (rows : list row) (i : nat) (r : row) :
  In (i, r) (read_table rows) <-> rows !! i = Some r.
Proof.
  unfold read_table. rewrite <- list_elem_of_In, elem_of_lookup_imap. split.
  - intros (j & y & [= -> ->] & H). exact H.
  - intros H. eauto.
Qed.

Lemma index_imap (rows : list row) (n : nat) :
  List.map fst (imap (fun i r => (n + i, r)) rows) = seq n (length rows).
Proof.
  revert n. induction rows as [|r rows IH]; intros n; simpl; [reflexivity|].
  f_equal; [lia|]. rewrite <- (IH (S n)). f_equal.
  apply imap_ext. intros i x _. simpl. f_equal. lia.
Qed.

Lemma NoDup_index_read_table (rows : list row) : NoDup (index (read_table rows)).
Proof.
  unfold index, read_table.
  replace (List.map fst (imap (fun i (r : row) => (i, r)) rows))
    with (seq 0 (length rows)) by (symmetry; apply (index_imap rows 0)).
  apply NoDup_seq.
Qed.

Lemma In_assign (col : string) (f : row -> cell) (df : DataFrame) (i : nat) (r' : row) :
  In (i, r') (assign col f df) <->
  exists r, In (i, r) df /\ r' = <[col := f r]> r.
Proof.
  unfold assign. rewrite in_map_iff. split.
  - intros ([j r] & E & H). simpl in E. injection E as -> <-. eauto.
  - intros (r & H & ->). exists (i, r). auto.
Qed.

Lemma In_dropna (cols : list string) (df : DataFrame) (ir : nat * row) :
  In ir (dropna cols df) <-> In ir df /\ complete cols ir.2 = true.
Proof. unfold dropna. apply filter_In. Qed.

Lemma In_select (cols : list string) (df : DataFrame) (i : nat) (r' : row) :
  In (i, r') (select cols df) <->
  exists r, In (i, r) df /\ r' = filter (fun kv => kv.1 ∈ cols) r.
Proof.
  unfold select. rewrite in_map_iff. split.
  - intros ([j r] & E & H). simpl in E. injection E as -> <-. eauto.
  - intros (r & H & ->). exists (i, r). auto.
Qed.

Lemma complete_spec (cols : list string) (r : row) :
  complete cols r = true <-> forall c, In c cols -> isna (get r c) = false.
Proof.
  unfold complete. rewrite forallb_forall. split; intros H c Hc.
  - apply negb_true_iff, H, Hc.
  - apply negb_true_iff, H, Hc.
Qed.



Lemma row_eqb_trans (cols : list string) (r1 r2 r3 : row) :
  row_eqb cols r1 r2 = true -> row_eqb cols r2 r3 = true ->
  row_eqb cols r1 r3 = true.
Proof.
  unfold row_eqb. rewrite !forallb_forall. intros H1 H2 c Hc.
  eapply cell_eqb_trans; eauto.
Qed.


(** ** The stable sort *)

Section StableSortFacts.
Context {A : Type} (key : A -> cell).

#[local] Abbreviation key_le := (key_le key).
#[local] Abbreviation present := (present key).

Lemma insert_sorted_Permutation (x : A) (l : list A) :
  Permutation (insert_sorted key x l) (x :: l).
Proof.
  induction l as [|h t IH]; simpl; [reflexivity|].
  destruct (cell_leb (key x) (key h)); [reflexivity|].
  rewrite IH. apply perm_swap.
Qed.

Lemma stable_sort_Permutation (l : list A) : Permutation (stable_sort key l) l.
Proof.
  induction l as [|x l IH]; simpl; [reflexivity|].
  rewrite insert_sorted_Permutation, IH. reflexivity.
Qed.

Lemma In_stable_sort (l : list A) (x : A) : In x (stable_sort key l) <-> In x l.
Proof.
  split; apply Permutation_in;
    [apply stable_sort_Permutation | symmetry; apply stable_sort_Permutation].
Qed.

Lemma insert_sorted_StronglySorted (x : A) (l : list A) :
  present x -> Forall present l ->
  StronglySorted key_le l -> StronglySorted key_le (insert_sorted key x l).
Proof.
  intros Hx Hl Hs. induction Hs as [|h t Hs IH Hh]; simpl.
  - repeat constructor.
  - inversion Hl as [|? ? Hph Hpt]; subst.
    rewrite List.Forall_forall in Hh.
    destruct (cell_leb (key x) (key h)) eqn:E.
    + constructor; [constructor; [assumption|]|].
      * rewrite List.Forall_forall. exact Hh.
      * constructor; [exact E|].
        rewrite List.Forall_forall. intros b Hb.
        unfold key_le in *. eapply cell_leb_trans; eauto.
    + constructor; [apply IH, Hpt|].
      assert (Hhx : key_le h x).
      { destruct (cell_leb_total (key x) (key h) Hx Hph) as [H|H]; [congruence|exact H]. }
      rewrite List.Forall_forall. intros b Hb.
      apply (Permutation_in _ (insert_sorted_Permutation x t)) in Hb.
      destruct Hb as [<-|Hb]; [exact Hhx|].
      apply Hh, Hb.
Qed.

Lemma stable_sort_StronglySorted (l : list A) :
  Forall present l -> StronglySorted key_le (stable_sort key l).
Proof.
  induction 1 as [|x l Hx Hl IH]; simpl; [constructor|].
  apply insert_sorted_StronglySorted; auto.
  rewrite List.Forall_forall in *. intros b Hb. apply Hl, In_stable_sort, Hb.
Qed.



End StableSortFacts.

Lemma StronglySorted_snoc {A : Type} (R : A -> A -> Prop) (l : list A) (x : A) :
  StronglySorted R l -> Forall (fun y => R y x) l -> StronglySorted R (l ++ [x]).
Proof.
  induction 1 as [|h t Hs IH Hh]; intros Hx; simpl.
  - repeat constructor.
  - inversion Hx as [|? ? Hhx Htx]; subst. constructor; [apply IH, Htx|].
    apply Forall_app. split; [exact Hh|]. constructor; [exact Hhx|constructor].
Qed.

Lemma StronglySorted_rev {A : Type} (R : A -> A -> Prop) (l : list A) :
  StronglySorted R l -> StronglySorted (fun a b => R b a) (rev l).
Proof.
  induction 1 as [|h t Hs IH Hh]; simpl; [constructor|].
  apply StronglySorted_snoc; [exact IH|].
  rewrite List.Forall_forall in *. intros y Hy. apply Hh, in_rev, Hy.
Qed.


(** ** [sort_values] *)

Lemma filter_all {A : Type} (p : A -> bool) (l : list A) :
  (forall x, In x l -> p x = true) -> List.filter p l = l.
Proof.
  induction l as [|x l IH]; intros H; [reflexivity|].
  simpl. rewrite (H x) by (left; reflexivity). f_equal.
  apply IH. intros y Hy. apply H. right. exact Hy.
Qed.

Lemma filter_none {A : Type} (p : A -> bool) (l : list A) :
  (forall x, In x l -> p x = false) -> List.filter p l = [].
Proof.
  induction l as [|x l IH]; intros H; [reflexivity|].
  simpl. rewrite (H x) by (left; reflexivity).
  apply IH. intros y Hy. apply H. right. exact Hy.
Qed.


Lemma sort_values_desc_present (col : string) (df : DataFrame) :
  (forall ir, In ir df -> isna (get ir.2 col) = false) ->
  sort_values_desc col df =
  rev (stable_sort (fun ir : nat * row => get ir.2 col) (rev df)).
Proof.
  intros H. unfold sort_values_desc.
  rewrite filter_all, filter_none, app_nil_r; auto.
  intros ir Hir. rewrite (H ir Hir). reflexivity.
Qed.

Lemma sort_values_desc_sorted (col : string) (df : DataFrame) :
  (forall ir, In ir df -> isna (get ir.2 col) = false) ->
  StronglySorted (key_ge col) (sort_values_desc col df).
Proof.
  intros H. rewrite sort_values_desc_present by exact H.
  apply (StronglySorted_rev (key_le (fun ir : nat * row => get ir.2 col))).
  apply stable_sort_StronglySorted.
  rewrite List.Forall_forall. intros ir Hir. apply H, in_rev, Hir.
Qed.


(** ** [drop_duplicates] *)

Lemma In_drop_duplicates_from (cols : list string) (df : DataFrame)
    (seen : list row) (ir : nat * row) :
  In ir (drop_duplicates_from cols seen df) -> In ir df.
Proof.
  revert seen. induction df as [|x df IH]; intros seen; simpl; [tauto|].
  destruct (existsb (row_eqb cols x.2) seen).
  - intros H. right. eapply IH, H.
  - intros [->|H]; [left; reflexivity|right; eapply IH, H].
Qed.




(** ** The cleaning stage *)

Ltac get_cases :=
  repeat match goal with
    | |- context [get (<[?a := _]> _) ?a] => rewrite (get_insert _ a)
    | |- context [get (<[?a := _]> _) ?b] =>
        let E := fresh "E" in
        destruct (decide (a = b)) as [E|?];
        [rewrite ?E; rewrite (get_insert _ b)
        | rewrite (get_insert_ne _ a b) by assumption]
    end.

Section CleaningFacts.
Variable parse_number : string -> option float.

Lemma to_numeric_Num (c : cell) : exists x, to_numeric parse_number c = Num x.
Proof.
  destruct c as [x|s]; simpl; [eauto|].
  destruct (parse_number s); unfold NaN; eauto.
Qed.

Lemma to_numeric_idem (c : cell) :
  to_numeric parse_number (to_numeric parse_number c) = to_numeric parse_number c.
Proof. destruct (to_numeric_Num c) as [x ->]. reflexivity. Qed.

Lemma isna_to_numeric (c : cell) :
  isna c = true -> isna (to_numeric parse_number c) = true.
Proof. destruct c as [x|s]; simpl; [auto|discriminate]. Qed.

Lemma coercion_fails_isna (c : cell) :
  coercion_fails parse_number c -> isna (to_numeric parse_number c) = true.
Proof. intros (s & -> & E). simpl. rewrite E. reflexivity. Qed.

Lemma get_convert_row (m : Mapping) (r : row) (c : string) :
  In c [population_col m; poverty_col m; millionaire_col m] ->
  get (convert_row parse_number m r) c = to_numeric parse_number (get r c).
Proof.
  unfold convert_row. simpl.
  intros [<-|[<-|[<-|[]]]]; get_cases; rewrite ?to_numeric_idem; reflexivity.
Qed.

Lemma get_convert_row_other (m : Mapping) (r : row) (c : string) :
  ~ In c [population_col m; poverty_col m; millionaire_col m] ->
  get (convert_row parse_number m r) c = get r c.
Proof.
  unfold convert_row. simpl. intros H. get_cases; tauto.
Qed.

Lemma lookup_insert_to_numeric (r : row) (a c : string) (v : cell) :
  a = c \/ (exists x, r !! c = Some (Num x)) ->
  exists x, <[a := to_numeric parse_number v]> r !! c = Some (Num x).
Proof.
  intros H. destruct (decide (a = c)) as [->|Hne].
  - rewrite lookup_insert_eq. destruct (to_numeric_Num v) as [x ->]. eauto.
  - rewrite lookup_insert_ne by exact Hne. destruct H; [congruence|assumption].
Qed.

Lemma lookup_convert_row (m : Mapping) (r : row) (c : string) :
  In c [population_col m; poverty_col m; millionaire_col m] ->
  exists x, convert_row parse_number m r !! c = Some (Num x).
Proof.
  unfold convert_row. simpl. intros H.
  apply lookup_insert_to_numeric.
  destruct (decide (millionaire_col m = c)); [left; assumption|right].
  apply lookup_insert_to_numeric.
  destruct (decide (poverty_col m = c)); [left; assumption|right].
  apply lookup_insert_to_numeric. left. intuition congruence.
Qed.

Lemma convert_row_fixed (m : Mapping) (r : row) :
  (forall c, In c [population_col m; poverty_col m; millionaire_col m] ->
             exists x, r !! c = Some (Num x)) ->
  convert_row parse_number m r = r.
Proof.
  intros H. unfold convert_row. simpl.
  assert (Hid : forall c, In c [population_col m; poverty_col m; millionaire_col m] ->
                         <[c := to_numeric parse_number (get r c)]> r = r).
  { intros c Hc. destruct (H c Hc) as [x Hx]. apply insert_id.
    unfold get. rewrite Hx. reflexivity. }
  rewrite (Hid (population_col m)) by (simpl; auto).
  rewrite (Hid (poverty_col m)) by (simpl; auto).
  apply Hid. simpl. auto.
Qed.

(** The divisions of the stage only meet numbers: both operands of both
    ratios are numeric cells, whatever the mapping. *)
Lemma division_operands_numeric (m : Mapping) (r : row) :
  let c := convert_row parse_number m r in
  let c' := <["Millionaire_Density" :=
                cell_div (get c (millionaire_col m)) (get c (population_col m))]> c in
  (exists a b, get c (millionaire_col m) = Num a /\ get c (population_col m) = Num b) /\
  (exists a b, get c' (poverty_col m) = Num a /\ get c' (population_col m) = Num b).
Proof.
  cbv zeta.
  assert (Hnum : forall col,
             In col [population_col m; poverty_col m; millionaire_col m] ->
             exists x, get (convert_row parse_number m r) col = Num x).
  { intros col Hcol. rewrite (get_convert_row m r col Hcol). apply to_numeric_Num. }
  destruct (Hnum (millionaire_col m)) as [a Ha]; [simpl; auto|].
  destruct (Hnum (population_col m)) as [b Hb]; [simpl; auto|].
  destruct (Hnum (poverty_col m)) as [c Hc]; [simpl; auto|].
  split; [eauto|]. rewrite Ha, Hb. cbn [cell_div].
  assert (Hafter : forall col x,
             get (convert_row parse_number m r) col = Num x ->
             exists y, get (<["Millionaire_Density" := Num (a / b)]>
                              (convert_row parse_number m r)) col = Num y).
  { intros col x Hx. destruct (decide ("Millionaire_Density" = col)) as [<-|Hne].
    - rewrite get_insert. eauto.
    - rewrite get_insert_ne by exact Hne. eauto. }
  destruct (Hafter _ _ Hc) as [a' Ha']. destruct (Hafter _ _ Hb) as [b' Hb'].
  eauto.
Qed.

Lemma numeric_conversions_rows (m : Mapping) (df : DataFrame) :
  numeric_conversions parse_number m df =
  List.map (fun ir => (ir.1, convert_row parse_number m ir.2)) df.
Proof.
  unfold numeric_conversions, coerce, assign, convert_row. simpl.
  rewrite !List.map_map. apply List.map_ext. intros [i r]. reflexivity.
Qed.

Lemma df_clean_rows (m : Mapping) (df : DataFrame) :
  df_clean parse_number m df =
  List.map (fun ir => (ir.1, derive_row m ir.2))
    (List.filter (fun ir => complete (required m) ir.2)
       (List.map (fun ir => (ir.1, convert_row parse_number m ir.2)) df)).
Proof.
  unfold df_clean, assign, dropna. rewrite numeric_conversions_rows.
  rewrite List.map_map. apply List.map_ext. intros [i r]. reflexivity.
Qed.

Lemma In_df_clean (m : Mapping) (df : DataFrame) (i : nat) (r' : row) :
  In (i, r') (df_clean parse_number m df) <->
  exists r, In (i, r) df /\
            complete (required m) (convert_row parse_number m r) = true /\
            r' = derive_row m (convert_row parse_number m r).
Proof.
  rewrite df_clean_rows, in_map_iff. split.
  - intros ([j c] & E & H). simpl in E. injection E as -> <-.
    apply filter_In in H as [H Hc]. apply in_map_iff in H as ([j r] & E & H).
    simpl in E. injection E as -> <-. eauto.
  - intros (r & H & Hc & ->).
    exists (i, convert_row parse_number m r). split; [reflexivity|].
    apply filter_In. split; [|exact Hc].
    apply in_map_iff. exists (i, r). auto.
Qed.

Lemma In_index (df : DataFrame) (i : nat) :
  In i (index df) <-> exists r, In (i, r) df.
Proof.
  unfold index. rewrite in_map_iff. split.
  - intros ([j r] & <- & H). eauto.
  - intros (r & H). exists (i, r). auto.
Qed.

(** A row that [dropna] must drop: a missing state cell, or a numeric cell
    that is missing or does not convert. *)
Lemma unusable_incomplete (m : Mapping) (r : row) :
  (isna (get r (state_col m)) = true \/
   exists col, In col [population_col m; poverty_col m; millionaire_col m] /\
     (isna (get r col) = true \/ coercion_fails parse_number (get r col))) ->
  complete (required m) (convert_row parse_number m r) = false.
Proof.
  intros H. apply not_true_iff_false. rewrite complete_spec. intros Hc.
  assert (Hnum : forall col,
             In col [population_col m; poverty_col m; millionaire_col m] ->
             isna (to_numeric parse_number (get r col)) = false).
  { intros col Hcol. rewrite <- (get_convert_row m r col Hcol).
    apply Hc. unfold required. right. exact Hcol. }
  destruct H as [Hs|(col & Hcol & [Hn|Hf])].
  - assert (Hst : isna (get (convert_row parse_number m r) (state_col m)) = false)
      by (apply Hc; left; reflexivity).
    destruct (in_dec String.string_dec (state_col m)
                [population_col m; poverty_col m; millionaire_col m]) as [Hin|Hout].
    + rewrite (get_convert_row m r _ Hin), (isna_to_numeric _ Hs) in Hst. discriminate.
    + rewrite (get_convert_row_other m r _ Hout), Hs in Hst. discriminate.
  - specialize (Hnum col Hcol). rewrite (isna_to_numeric _ Hn) in Hnum. discriminate.
  - specialize (Hnum col Hcol). rewrite (coercion_fails_isna _ Hf) in Hnum. discriminate.
Qed.

End CleaningFacts.

(** C6. A row of the uploaded table is absent from the Cleaned Table when
    its state-name cell is missing, or when one of its three mapped numeric
    cells (population, poverty count, millionaire count) is missing or
    fails numeric coercion. The stage is a total function of the table: a
    failed coercion yields the missing value and the row is dropped, no
    error is raised. *)
Theorem unusable_row_not_cleaned (parse_number : string -> option float)
    (m : Mapping) (rows : list row) (k : nat) (r : row) :
  rows !! k = Some r ->
  (isna (get r (state_col m)) = true \/
   exists col, In col [population_col m; poverty_col m; millionaire_col m] /\
     (isna (get r col) = true \/ coercion_fails parse_number (get r col))) ->
  ~ In k (index (df_clean parse_number m (read_table rows))).
Proof.
  intros Hk Hbad Hin.
  apply In_index in Hin as (r' & Hin).
  apply In_df_clean in Hin as (r0 & Hr0 & Hc & _).
  apply In_read_table in Hr0. rewrite Hk in Hr0. injection Hr0 as <-.
  rewrite (unusable_incomplete parse_number m r Hbad) in Hc. discriminate.
Qed.

(** The rows that pass are kept, with their index. *)
Lemma usable_row_cleaned (parse_number : string -> option float)
    (m : Mapping) (rows : list row) (k : nat) (r : row) :
  rows !! k = Some r ->
  complete (required m) (convert_row parse_number m r) = true ->
  In (k, derive_row m (convert_row parse_number m r))
    (df_clean parse_number m (read_table rows)).
Proof.
  intros Hk Hc. apply In_df_clean. exists r.
  split; [apply In_read_table, Hk|auto].
Qed.

Lemma unusable_row_not_cleaned_witness :
  ~ In 1 (index (df_clean parse_unsigned std_mapping
                   (read_table [raw_row "Texas" "1000" "150" "20";
                                raw_row "Ohio" "n/a" "100" "5"]))).
Proof.
  apply (unusable_row_not_cleaned parse_unsigned std_mapping
           [raw_row "Texas" "1000" "150" "20"; raw_row "Ohio" "n/a" "100" "5"]
           1 (raw_row "Ohio" "n/a" "100" "5")).
  - reflexivity.
  - right. exists "State Population". split; [left; reflexivity|].
    right. exists "n/a". split; reflexivity.
Defined.

(** The text row that converts is kept, with the numbers it spells. *)
Lemma text_rows_cleaned :
  List.map (fun ir : nat * row =>
              (ir.1, get ir.2 "State", get ir.2 "State Population",
               get ir.2 "Poverty_Rate"))
    (df_clean parse_unsigned std_mapping
       (read_table [raw_row "Texas" "1000" "150" "20";
                    raw_row "Ohio" "n/a" "100" "5"])) =
  [(0, Str "Texas", Num 1000, Num (150 / 1000))].
Proof. vm_compute. reflexivity. Qed.

(** ** Running the cleaning stage on its own output *)

Lemma fresh_derived_spec (m : Mapping) (c : string) :
  fresh_derived m = true -> In c (required m) ->
  c <> "Millionaire_Density" /\ c <> "Poverty_Rate".
Proof.
  unfold fresh_derived. rewrite forallb_forall. intros H Hc.
  specialize (H c Hc). apply negb_true_iff in H. simpl in H.
  apply orb_false_iff in H as [H1 H2]. apply orb_false_iff in H2 as [H2 _].
  apply String.eqb_neq in H1, H2. auto.
Qed.

Section Idempotence.
Variable parse_number : string -> option float.
Variable m : Mapping.
Hypothesis fresh : fresh_derived m = true.

Lemma get_derive_row (r : row) (c : string) :
  In c (required m) -> get (derive_row m r) c = get r c.
Proof.
  intros Hc. destruct (fresh_derived_spec m c fresh Hc) as [H1 H2].
  unfold derive_row. rewrite !get_insert_ne by congruence. reflexivity.
Qed.

Lemma lookup_derive_row (r : row) (c : string) :
  In c (required m) -> derive_row m r !! c = r !! c.
Proof.
  intros Hc. destruct (fresh_derived_spec m c fresh Hc) as [H1 H2].
  unfold derive_row. rewrite !lookup_insert_ne by congruence. reflexivity.
Qed.

Lemma get_Poverty_Rate (r : row) :
  get (derive_row m r) "Poverty_Rate" =
  cell_div (get r (poverty_col m)) (get r (population_col m)).
Proof.
  destruct (fresh_derived_spec m (poverty_col m) fresh) as [H1 _];
    [unfold required; simpl; auto|].
  destruct (fresh_derived_spec m (population_col m) fresh) as [H2 _];
    [unfold required; simpl; auto|].
  unfold derive_row. rewrite get_insert, !get_insert_ne by congruence. reflexivity.
Qed.

Lemma get_Millionaire_Density (r : row) :
  get (derive_row m r) "Millionaire_Density" =
  cell_div (get r (millionaire_col m)) (get r (population_col m)).
Proof.
  unfold derive_row. rewrite get_insert_ne by discriminate. apply get_insert.
Qed.

Lemma derive_row_idem (r : row) : derive_row m (derive_row m r) = derive_row m r.
Proof.
  assert (Hmil : In (millionaire_col m) (required m)) by (unfold required; simpl; auto).
  assert (Hpov : In (poverty_col m) (required m)) by (unfold required; simpl; auto).
  assert (Hpop : In (population_col m) (required m)) by (unfold required; simpl; auto).
  assert (E1 : <["Millionaire_Density" :=
                   cell_div (get (derive_row m r) (millionaire_col m))
                     (get (derive_row m r) (population_col m))]> (derive_row m r)
               = derive_row m r).
  { apply insert_id. rewrite !get_derive_row by assumption.
    unfold derive_row. rewrite lookup_insert_ne by discriminate.
    apply lookup_insert_eq. }
  unfold derive_row at 1. rewrite E1. apply insert_id.
  rewrite !get_derive_row by assumption.
  destruct (fresh_derived_spec m _ fresh Hpov) as [H1 _].
  destruct (fresh_derived_spec m _ fresh Hpop) as [H2 _].
  unfold derive_row. rewrite lookup_insert_eq, !get_insert_ne by congruence.
  reflexivity.
Qed.

(** What the second run relies on: the numeric columns already hold
    numbers and the required cells are present. *)
#[local] Abbreviation settled :=
  (fun ir : nat * row =>
     (forall c, In c [population_col m; poverty_col m; millionaire_col m] ->
                exists x, ir.2 !! c = Some (Num x)) /\
     complete (required m) ir.2 = true).

Lemma settled_after_filter (df : DataFrame) :
  Forall settled
    (List.filter (fun ir => complete (required m) ir.2)
       (List.map (fun ir => (ir.1, convert_row parse_number m ir.2)) df)).
Proof.
  rewrite List.Forall_forall. intros [i c] H.
  apply filter_In in H as [H Hc]. apply in_map_iff in H as ([j r] & E & _).
  simpl in E. injection E as _ <-. split; [|exact Hc].
  intros col Hcol. apply lookup_convert_row, Hcol.
Qed.

Lemma second_run (l : DataFrame) :
  Forall settled l ->
  List.map (fun ir => (ir.1, derive_row m ir.2))
    (List.filter (fun ir => complete (required m) ir.2)
       (List.map (fun ir => (ir.1, convert_row parse_number m ir.2))
          (List.map (fun ir => (ir.1, derive_row m ir.2)) l))) =
  List.map (fun ir => (ir.1, derive_row m ir.2)) l.
Proof.
  induction 1 as [|[i c] l [Hnum Hc] _ IH]; [reflexivity|].
  cbn [snd] in Hnum, Hc. cbn [List.map fst snd].
  assert (Hfix : convert_row parse_number m (derive_row m c) = derive_row m c).
  { apply convert_row_fixed. intros col Hcol.
    rewrite lookup_derive_row by (unfold required; right; exact Hcol).
    apply Hnum, Hcol. }
  assert (Hkeep : complete (required m) (derive_row m c) = true).
  { apply complete_spec. intros col Hcol. rewrite get_derive_row by exact Hcol.
    rewrite complete_spec in Hc. apply Hc, Hcol. }
  rewrite Hfix. cbn [List.filter snd]. rewrite Hkeep. cbn [List.map fst snd].
  rewrite derive_row_idem, IH. reflexivity.
Qed.

End Idempotence.

(** C7 fails as stated: with the population role mapped to a column named
    [Poverty_Rate], the first run overwrites that column with the ratio and
    the second run divides by it. *)
Lemma cleaning_not_idempotent :
  ~ (forall (parse_number : string -> option float) (m : Mapping) (df : DataFrame),
       df_clean parse_number m (df_clean parse_number m df) =
       df_clean parse_number m df).
Proof.
  intros H. specialize (H parse_unsigned clash_mapping clash_table).
  apply (f_equal (List.map (fun ir : nat * row =>
                              cell_eqb (get ir.2 "Poverty_Rate") (Num 4)))) in H.
  vm_compute in H. discriminate.
Qed.

(** C7, amended. When none of the four mapped columns is itself named
    [Millionaire_Density] or [Poverty_Rate], the Cleaning & Derivation
    Stage is idempotent: applied to its own output it returns that output. *)
Theorem df_clean_idempotent (parse_number : string -> option float)
    (m : Mapping) (df : DataFrame) :
  fresh_derived m = true ->
  df_clean parse_number m (df_clean parse_number m df) =
  df_clean parse_number m df.
Proof.
  intros fresh.
  rewrite (df_clean_rows parse_number m (df_clean parse_number m df)).
  rewrite (df_clean_rows parse_number m df).
  apply second_run; [exact fresh|apply settled_after_filter].
Qed.

Lemma df_clean_idempotent_witness :
  df_clean parse_unsigned std_mapping
    (df_clean parse_unsigned std_mapping
       (read_table [mk_row "Texas" 1000 150 20; mk_row "Ohio" 500 100 5])) =
  df_clean parse_unsigned std_mapping
    (read_table [mk_row "Texas" 1000 150 20; mk_row "Ohio" 500 100 5]).
Proof. apply df_clean_idempotent. reflexivity. Defined.

(** ** The ranked poverty-rate table *)

Section RankingFacts.
Variable m : Mapping.

#[local] Abbreviation pair_cols := [state_col m; "Poverty_Rate"].

Lemma get_selected (r : row) (c : string) :
  In c pair_cols -> get (filter (fun kv => kv.1 ∈ pair_cols) r) c = get r c.
Proof. intros H. apply get_select, list_elem_of_In, H. Qed.


Lemma rate_rows_sound (df : DataFrame) (i : nat) (e : row) :
  In (i, e) (rate_rows m df) ->
  exists r, In (i, r) df /\
            get e (state_col m) = get r (state_col m) /\
            get e "Poverty_Rate" = get r "Poverty_Rate" /\
            isna (get e (state_col m)) = false /\
            isna (get e "Poverty_Rate") = false.
Proof.
  intros H. apply In_drop_duplicates_from, In_dropna in H as [H Hc].
  apply In_select in H as (r & Hr & ->). cbn [snd] in Hc.
  rewrite complete_spec in Hc.
  exists r. rewrite !get_selected by (simpl; auto). repeat split; auto.
  - rewrite <- (get_selected r (state_col m)) by (simpl; auto).
    apply Hc. simpl. auto.
  - rewrite <- (get_selected r "Poverty_Rate") by (simpl; auto).
    apply Hc. simpl. auto.
Qed.

Lemma rate_rows_present (df : DataFrame) (ir : nat * row) :
  In ir (rate_rows m df) -> isna (get ir.2 "Poverty_Rate") = false.
Proof.
  destruct ir as [i e]. intros H.
  apply rate_rows_sound in H as (r & _ & _ & _ & _ & H). exact H.
Qed.




Lemma rate_df_sorted (df : DataFrame) :
  StronglySorted (key_ge "Poverty_Rate") (rate_df m df).
Proof. apply sort_values_desc_sorted, rate_rows_present. Qed.


End RankingFacts.

Lemma with_state_code_rows (m : Mapping) (df : DataFrame) :
  with_state_code m df = List.map (fun ir => (ir.1, code_row m ir.2)) df.
Proof. reflexivity. Qed.

Lemma In_cleaned (parse_number : string -> option float) (m : Mapping)
    (rows : list row) (k : nat) (r' : row) :
  In (k, r') (cleaned parse_number m rows) <->
  exists r, rows !! k = Some r /\
            complete (required m) (convert_row parse_number m r) = true /\
            r' = code_row m (derive_row m (convert_row parse_number m r)).
Proof.
  unfold cleaned. rewrite with_state_code_rows, in_map_iff. split.
  - intros ([j d] & E & H). simpl in E. injection E as -> <-.
    apply In_df_clean in H as (r & Hr & Hc & ->).
    apply In_read_table in Hr. eauto.
  - intros (r & Hr & Hc & ->).
    exists (k, derive_row m (convert_row parse_number m r)).
    split; [reflexivity|]. apply usable_row_cleaned; assumption.
Qed.



Lemma zero_population_rate_is_infinite :
  rate_display std_mapping
    (cleaned parse_unsigned std_mapping [mk_row "Atlantis" 0 5 1]) =
  [(Str "Atlantis", Num infinity)].
Proof. vm_compute. reflexivity. Qed.




(** The order among ties cannot follow the names, whatever sort is used:
    the sort key is the rate column alone, the two tie tables have the same
    rate column, and no indexer puts both of them in name order. *)
Lemma single_key_sort_ignores_names :
  List.map snd (pairs std_mapping tie_table) =
  List.map snd (pairs std_mapping tie_table_swapped) /\
  forall indexer, Permutation [0; 1] indexer ->
    ~ (ties_by_name (pairs std_mapping (take indexer tie_table)) /\
       ties_by_name (pairs std_mapping (take indexer tie_table_swapped))).
Proof.
  split; [vm_compute; reflexivity|].
  intros indexer Hperm [H1 H2].
  assert (Hbad : ~ ties_by_name [(Str "C", Num (30 / 100)); (Str "A", Num (30 / 100))]).
  { intros H. inversion H as [|? ? _ Hhd]; subst.
    inversion Hhd as [|? ? Hca _]; subst.
    specialize (Hca eq_refl). vm_compute in Hca. discriminate. }
  apply Permutation_length_2_inv in Hperm as [-> | ->]; apply Hbad.
  - assert (E : pairs std_mapping (take [0; 1] tie_table) =
                [(Str "C", Num (30 / 100)); (Str "A", Num (30 / 100))])
      by (vm_compute; reflexivity).
    rewrite <- E. exact H1.
  - assert (E : pairs std_mapping (take [1; 0] tie_table_swapped) =
                [(Str "C", Num (30 / 100)); (Str "A", Num (30 / 100))])
      by (vm_compute; reflexivity).
    rewrite <- E. exact H2.
Qed.




(** ** The state-code lookup and the map view *)

(** C3 fails as stated: the literal has 52 keys, not 51. *)
Lemma STATE_ABBREV_not_51_entries : size STATE_ABBREV <> 51.
Proof. vm_compute. discriminate. Qed.

Lemma STATE_ABBREV_keys_NoDup : NoDup (List.map fst STATE_ABBREV_items).
Proof. apply (bool_decide_unpack _). vm_compute. exact I. Qed.

Lemma STATE_ABBREV_lookup (name code : string) :
  STATE_ABBREV !! name = Some code <-> In (name, code) STATE_ABBREV_items.
Proof.
  unfold STATE_ABBREV. rewrite <- list_elem_of_In.
  symmetry. apply elem_of_list_to_map, STATE_ABBREV_keys_NoDup.
Qed.

Lemma postal_code_length (name code : string) :
  STATE_ABBREV !! name = Some code -> String.length code = 2.
Proof.
  intros H. apply STATE_ABBREV_lookup in H.
  assert (Hall : List.Forall (fun kv : string * string => String.length kv.2 = 2)
                   STATE_ABBREV_items)
    by (apply (bool_decide_unpack _); vm_compute; exact I).
  rewrite List.Forall_forall in Hall. apply (Hall _ H).
Qed.

(** C3, amended. The Geo Lookup Table has exactly 52 entries: the 50 state
    names, and the two spellings "District of Columbia" and "D.C.", which
    both map to DC; the 52 names map to 51 distinct postal codes. *)
Theorem STATE_ABBREV_entries :
  size STATE_ABBREV = 52 /\
  length us_states = 50 /\
  (forall name code,
     STATE_ABBREV !! name = Some code <->
     In (name, code) us_states \/
     (name = "District of Columbia" \/ name = "D.C.") /\ code = "DC") /\
  size (list_to_set (List.map snd (map_to_list STATE_ABBREV)) : gset string) = 51.
Proof.
  refine (conj _ (conj _ (conj _ _))).
  - vm_compute. reflexivity.
  - reflexivity.
  - intros name code. rewrite STATE_ABBREV_lookup.
    unfold STATE_ABBREV_items, district_names. rewrite in_app_iff. simpl.
    split; (intros [H|H]; [left; exact H|right]).
    + destruct H as [H|[H|[]]]; injection H as <- <-; auto.
    + destruct H as [[->| ->] ->]; auto.
  - vm_compute. reflexivity.
Qed.

Lemma In_index_unique (df : DataFrame) (i : nat) (r r' : row) :
  NoDup (index df) -> In (i, r) df -> In (i, r') df -> r = r'.
Proof.
  unfold index. induction df as [|[j x] df IH]; simpl; [tauto|].
  intros Hnd. apply NoDup_cons in Hnd as [Hj Hnd].
  assert (Hfresh : forall y, ~ In (j, y) df).
  { intros y Hy. apply Hj, list_elem_of_In, in_map_iff. exists (j, y). auto. }
  intros [E|H] [E'|H'].
  - congruence.
  - injection E as -> ->. destruct (Hfresh _ H').
  - injection E' as -> ->. destruct (Hfresh _ H).
  - apply IH; assumption.
Qed.

Lemma In_df_map (m : Mapping) (df : DataFrame) (i : nat) (r' : row) :
  In (i, r') (df_map (with_state_code m df)) <->
  exists r, In (i, r) df /\ r' = code_row m r /\
            isna (map_dict STATE_ABBREV (get r (state_col m))) = false.
Proof.
  unfold df_map. rewrite In_dropna, with_state_code_rows, in_map_iff. split.
  - intros [([j r] & E & H) Hc]. simpl in E. injection E as -> <-.
    exists r. repeat split; [exact H|].
    rewrite complete_spec in Hc. specialize (Hc "state_code" (or_introl eq_refl)).
    cbn [snd] in Hc. unfold code_row in Hc. rewrite get_insert in Hc. exact Hc.
  - intros (r & H & -> & Hc). split; [exists (i, r); auto|].
    apply complete_spec. intros c [<-|[]]. cbn [snd].
    unfold code_row. rewrite get_insert. exact Hc.
Qed.

(** C4. A row of the Cleaned Table whose state name is, character for
    character, a key of the lookup table is in the Mapped-Geo Table with
    that key's two-letter code in [state_code]; a row with any other state
    cell is not in the Mapped-Geo Table. Either way the row stays in the
    Cleaned Table. *)
Theorem geo_code_resolver (m : Mapping) (df : DataFrame) (i : nat) (r : row) :
  In (i, r) df ->
  In (i, code_row m r) (with_state_code m df) /\
  (forall name code,
     get r (state_col m) = Str name -> STATE_ABBREV !! name = Some code ->
     In (i, code_row m r) (df_map (with_state_code m df)) /\
     get (code_row m r) "state_code" = Str code /\
     String.length code = 2) /\
  ((forall name, get r (state_col m) = Str name -> STATE_ABBREV !! name = None) ->
     ~ In (i, code_row m r) (df_map (with_state_code m df)) /\
     (NoDup (index df) -> ~ In i (index (df_map (with_state_code m df))))).
Proof.
  intros Hin. refine (conj _ (conj _ _)).
  - rewrite with_state_code_rows. apply in_map_iff. exists (i, r). auto.
  - intros name code Hs Hl. refine (conj _ (conj _ _)).
    + apply In_df_map. exists r. rewrite Hs. unfold map_dict. rewrite Hl. auto.
    + unfold code_row. rewrite get_insert, Hs. unfold map_dict. rewrite Hl. reflexivity.
    + apply (postal_code_length name code Hl).
  - intros Hno.
    assert (Hna : isna (map_dict STATE_ABBREV (get r (state_col m))) = true).
    { destruct (get r (state_col m)) as [x|name] eqn:E; unfold map_dict;
        [reflexivity|].
      rewrite (Hno name eq_refl). reflexivity. }
    assert (Habs : forall r', ~ (In (i, r') (df_map (with_state_code m df)) /\
                                 In (i, r) df /\ r' = code_row m r)).
    { intros r' (H & _ & ->). apply In_df_map in H as (r0 & _ & E & Hc).
      unfold code_row in E.
      apply (f_equal (fun x : row => get x "state_code")) in E.
      rewrite !get_insert in E. rewrite <- E, Hna in Hc. discriminate. }
    split.
    + intros H. apply (Habs (code_row m r)). auto.
    + intros Hnd H. apply In_index in H as (r' & H).
      pose proof H as H'. apply In_df_map in H' as (r0 & Hr0 & -> & _).
      rewrite (In_index_unique df i r0 r Hnd Hr0 Hin) in H.
      apply (Habs (code_row m r)). auto.
Qed.

Lemma geo_code_resolver_witness :
  In (0, code_row std_mapping (mk_row "Texas" 1000 150 20))
     (with_state_code std_mapping (read_table [mk_row "Texas" 1000 150 20])) /\
  (forall name code,
     get (mk_row "Texas" 1000 150 20) "State" = Str name ->
     STATE_ABBREV !! name = Some code ->
     In (0, code_row std_mapping (mk_row "Texas" 1000 150 20))
        (df_map (with_state_code std_mapping
                   (read_table [mk_row "Texas" 1000 150 20]))) /\
     get (code_row std_mapping (mk_row "Texas" 1000 150 20)) "state_code" = Str code /\
     String.length code = 2) /\
  ((forall name, get (mk_row "Texas" 1000 150 20) "State" = Str name ->
                 STATE_ABBREV !! name = None) ->
     ~ In (0, code_row std_mapping (mk_row "Texas" 1000 150 20))
          (df_map (with_state_code std_mapping
                     (read_table [mk_row "Texas" 1000 150 20]))) /\
     (NoDup (index (read_table [mk_row "Texas" 1000 150 20])) ->
      ~ In 0 (index (df_map (with_state_code std_mapping
                               (read_table [mk_row "Texas" 1000 150 20])))))).
Proof.
  apply (geo_code_resolver std_mapping (read_table [mk_row "Texas" 1000 150 20])
           0 (mk_row "Texas" 1000 150 20)).
  left. reflexivity.
Defined.

(** The match is exact: other spellings of a state name are not keys. *)
Lemma lookup_is_case_sensitive :
  STATE_ABBREV !! "Texas" = Some "TX" /\
  STATE_ABBREV !! "texas" = None /\
  STATE_ABBREV !! "TEXAS" = None /\
  STATE_ABBREV !! "Texas " = None /\
  STATE_ABBREV !! "Atlantis" = None.
Proof. vm_compute. auto. Qed.

(** C8. With an empty Mapped-Geo Table the map view takes the warning
    branch and reports that no valid state codes were found; the chart
    branch is taken exactly when the Mapped-Geo Table has rows. *)
Theorem map_view_gate (m : Mapping) (dfm : DataFrame) :
  (dfm = [] <-> tab2 m dfm = Tab2Warning no_valid_states) /\
  (dfm <> [] <-> exists top bottom, tab2 m dfm = Tab2Chart dfm top bottom) /\
  (forall locations top bottom,
     tab2 m dfm = Tab2Chart locations top bottom -> dfm <> [] /\ locations = dfm).
Proof.
  unfold tab2. destruct dfm as [|ir dfm]; simpl.
  - refine (conj _ (conj _ _)).
    + tauto.
    + split; [congruence|]. intros (top & bottom & H). discriminate.
    + intros locations top bottom H. discriminate.
  - refine (conj _ (conj _ _)).
    + split; discriminate.
    + split; [eauto|discriminate].
    + intros locations top bottom H. injection H as <- _ _. split; [discriminate|reflexivity].
Qed.

(** When no state name of the upload resolves, the map view of the script
    is the warning. *)
Lemma no_valid_states_warning (parse_number : string -> option float)
    (m : Mapping) (rows : list row) :
  (forall r, In r rows ->
     isna (map_dict STATE_ABBREV
             (get (derive_row m (convert_row parse_number m r)) (state_col m))) = true) ->
  tab2 m (mapped_geo parse_number m rows) = Tab2Warning no_valid_states.
Proof.
  intros H. unfold tab2.
  destruct (mapped_geo parse_number m rows) as [|[i r'] l] eqn:E; [reflexivity|].
  exfalso.
  assert (Hin : In (i, r') (mapped_geo parse_number m rows)) by (rewrite E; left; reflexivity).
  unfold mapped_geo, cleaned in Hin.
  apply In_df_map in Hin as (r0 & Hr0 & _ & Hc).
  apply In_df_clean in Hr0 as (r & Hr & _ & ->).
  apply In_read_table in Hr. apply list_elem_of_lookup_2, list_elem_of_In in Hr.
  rewrite (H r Hr) in Hc. discriminate.
Qed.

(** ** The comparison aggregation *)

Lemma nansum_snoc (cells : list cell) (c : cell) :
  nansum (cells ++ [c]) = nanadd (nansum cells) c.
Proof. unfold nansum. rewrite fold_left_app. reflexivity. Qed.

Lemma isin_eqb (values : list cell) (a b : cell) :
  cell_eqb a b = true -> isin values a = isin values b.
Proof.
  intros E. unfold isin. induction values as [|v values IH]; [reflexivity|].
  simpl. rewrite IH. f_equal.
  destruct (cell_eqb a v) eqn:Ea, (cell_eqb b v) eqn:Eb; try reflexivity.
  - rewrite cell_eqb_sym in E. rewrite (cell_eqb_trans b a v E Ea) in Eb. discriminate.
  - rewrite (cell_eqb_trans a b v E Eb) in Ea. discriminate.
Qed.

Lemma filter_filter_implied {A : Type} (p q : A -> bool) (l : list A) :
  (forall x, In x l -> p x = true -> q x = true) ->
  List.filter p (List.filter q l) = List.filter p l.
Proof.
  induction l as [|x l IH]; intros H; [reflexivity|]. simpl.
  assert (IH' : List.filter p (List.filter q l) = List.filter p l)
    by (apply IH; intros y Hy; apply H; right; exact Hy).
  destruct (q x) eqn:Eq; simpl.
  - rewrite IH'. reflexivity.
  - destruct (p x) eqn:Ep; [|exact IH'].
    rewrite (H x (or_introl eq_refl) Ep) in Eq. discriminate.
Qed.

Section GroupByFacts.
Variables key c1 c2 : string.

(** No two groups share a key. *)
#[local] Abbreviation distinct_keys :=
  (ForallOrdPairs (fun a b : Group => cell_eqb (group_key a) (group_key b) = false)).

(** The rows of a frame that belong to the group of key [k]. *)
#[local] Abbreviation members k :=
  (List.filter (fun ir : nat * row => cell_eqb k (get ir.2 key))).

Lemma add_to_group_keys (k p q : cell) (groups : list Group) (g' : Group) :
  In g' (add_to_group k p q groups) ->
  (exists g, In g groups /\ group_key g' = group_key g) \/ group_key g' = k.
Proof.
  induction groups as [|g groups IH]; simpl.
  - intros [<-|[]]. right. reflexivity.
  - destruct (cell_eqb (group_key g) k).
    + intros [E|H]; left.
      * exists g. subst g'. split; [left; reflexivity|reflexivity].
      * exists g'. split; [right; exact H|reflexivity].
    + intros [E|H].
      * left. exists g. subst g'. split; [left; reflexivity|reflexivity].
      * destruct (IH H) as [(g0 & H0 & E)|E]; [left; exists g0|right; exact E].
        split; [right; exact H0|exact E].
Qed.

Lemma add_to_group_keeps (k p q : cell) (groups : list Group) (g : Group) :
  In g groups ->
  exists g', In g' (add_to_group k p q groups) /\ group_key g' = group_key g.
Proof.
  induction groups as [|g0 groups IH]; simpl; [tauto|].
  destruct (cell_eqb (group_key g0) k).
  - intros [E|H].
    + subst g. eexists. split; [left; reflexivity|reflexivity].
    + exists g. split; [right; exact H|reflexivity].
  - intros [E|H].
    + subst g. exists g0. split; [left; reflexivity|reflexivity].
    + destruct (IH H) as (g' & H' & E). exists g'. split; [right; exact H'|exact E].
Qed.

Lemma add_to_group_has (k p q : cell) (groups : list Group) :
  exists g', In g' (add_to_group k p q groups) /\ cell_eqb (group_key g') k = true.
Proof.
  induction groups as [|g groups IH]; simpl.
  - eexists. split; [left; reflexivity|apply cell_eqb_refl].
  - destruct (cell_eqb (group_key g) k) eqn:E.
    + eexists. split; [left; reflexivity|exact E].
    + destruct IH as (g' & H' & E'). exists g'. split; [right; exact H'|exact E'].
Qed.

Lemma add_to_group_distinct (k p q : cell) (groups : list Group) :
  distinct_keys groups -> distinct_keys (add_to_group k p q groups).
Proof.
  induction 1 as [|g groups Hg Hd IH]; simpl.
  - repeat constructor.
  - destruct (cell_eqb (group_key g) k) eqn:E.
    + constructor; [exact Hg|exact Hd].
    + constructor; [|exact IH].
      rewrite List.Forall_forall in *. intros g' H'.
      destruct (add_to_group_keys k p q groups g' H') as [(g0 & H0 & ->)| ->];
        [apply Hg, H0|exact E].
Qed.

(** Where a member of the new list comes from. *)
Lemma add_to_group_cases (k p q : cell) (groups : list Group) (g' : Group) :
  distinct_keys groups ->
  In g' (add_to_group k p q groups) ->
  (In g' groups /\ cell_eqb (group_key g') k = false) \/
  (exists g, In g groups /\ cell_eqb (group_key g) k = true /\
             g' = {| group_key := group_key g;
                     poverty_sum := nanadd (poverty_sum g) p;
                     millionaire_sum := nanadd (millionaire_sum g) q |}) \/
  ((forall g, In g groups -> cell_eqb (group_key g) k = false) /\
   g' = {| group_key := k; poverty_sum := nanadd F64.zero p;
           millionaire_sum := nanadd F64.zero q |}).
Proof.
  induction 1 as [|g groups Hg Hd IH]; simpl.
  - intros [<-|[]]. right. right. split; [tauto|reflexivity].
  - rewrite List.Forall_forall in Hg.
    destruct (cell_eqb (group_key g) k) eqn:E.
    + intros [<-|H].
      * right. left. exists g. auto.
      * left. split; [right; exact H|].
        destruct (cell_eqb (group_key g') k) eqn:E'; [|reflexivity].
        rewrite cell_eqb_sym in E'.
        pose proof (Hg g' H) as Hgg. cbn beta in Hgg.
        rewrite (cell_eqb_trans _ _ _ E E') in Hgg. discriminate.
    + intros [<-|H]; [left; auto|].
      destruct (IH H) as [[H1 H2]|[(g0 & H0 & E0 & ->)|[Hno ->]]].
      * left. auto.
      * right. left. exists g0. auto.
      * right. right. split; [|reflexivity].
        intros g0 [<-|H0]; [exact E|apply Hno, H0].
Qed.

(** The state of the aggregation after the rows of [df]. *)
#[local] Abbreviation aggregated df groups :=
  (distinct_keys groups /\
   (forall g, In g groups ->
      isna (group_key g) = false /\
      (exists ir : nat * row, In ir df /\ get ir.2 key = group_key g) /\
      poverty_sum g =
        nansum (List.map (fun ir : nat * row => get ir.2 c1) (members (group_key g) df)) /\
      millionaire_sum g =
        nansum (List.map (fun ir : nat * row => get ir.2 c2) (members (group_key g) df))) /\
   (forall ir : nat * row, In ir df -> isna (get ir.2 key) = false ->
      exists g, In g groups /\ cell_eqb (group_key g) (get ir.2 key) = true)).

Lemma members_snoc (k : cell) (df : DataFrame) (ir : nat * row) :
  members k (df ++ [ir]) =
  members k df ++ (if cell_eqb k (get ir.2 key) then [ir] else []).
Proof. rewrite List.filter_app. reflexivity. Qed.

Lemma aggregated_step (df : DataFrame) (groups : list Group) (ir : nat * row) :
  aggregated df groups ->
  aggregated (df ++ [ir]) (group_step key c1 c2 groups ir).
Proof.
  intros (Hd & Hsum & Hall). unfold group_step.
  destruct (isna (get ir.2 key)) eqn:Ena.
  - (* the key is missing: the row joins no group *)
    refine (conj Hd (conj _ _)).
    + intros g Hg. destruct (Hsum g Hg) as (Hk & (x & Hx & Ex) & Hp & Hq).
      assert (Eno : cell_eqb (group_key g) (get ir.2 key) = false).
      { destruct (cell_eqb (group_key g) (get ir.2 key)) eqn:E; [|reflexivity].
        apply cell_eqb_isna in E. congruence. }
      rewrite members_snoc, Eno, app_nil_r.
      repeat split; auto. exists x. split; [apply in_or_app; auto|exact Ex].
    + intros x Hx Hk. apply in_app_or in Hx as [Hx|[<-|[]]]; [auto|congruence].
  - set (k := get ir.2 key).
    refine (conj (add_to_group_distinct k _ _ groups Hd) (conj _ _)).
    + intros g' Hg'.
      destruct (add_to_group_cases k _ _ groups g' Hd Hg')
        as [[Hg Eno]|[(g & Hg & Eyes & ->)|[Hno ->]]].
      * destruct (Hsum g' Hg) as (Hk & (x & Hx & Ex) & Hp & Hq).
        rewrite members_snoc. fold k. rewrite Eno, app_nil_r.
        repeat split; auto. exists x. split; [apply in_or_app; auto|exact Ex].
      * destruct (Hsum g Hg) as (Hk & (x & Hx & Ex) & Hp & Hq).
        cbn [group_key poverty_sum millionaire_sum].
        rewrite members_snoc. fold k. rewrite Eyes.
        rewrite !List.map_app. cbn [List.map].
        rewrite !nansum_snoc, <- Hp, <- Hq.
        repeat split; auto. exists x. split; [apply in_or_app; auto|exact Ex].
      * cbn [group_key poverty_sum millionaire_sum].
        rewrite members_snoc. fold k. rewrite cell_eqb_refl.
        assert (Hnone : members k df = []).
        { apply filter_none. intros x Hx.
          destruct (cell_eqb k (get x.2 key)) eqn:E; [|reflexivity].
          assert (Hxk : isna (get x.2 key) = false)
            by (rewrite <- (cell_eqb_isna _ _ E); exact Ena).
          destruct (Hall x Hx Hxk) as (g & Hg & Eg).
          rewrite cell_eqb_sym in E.
          pose proof (Hno g Hg) as Hgk.
          rewrite (cell_eqb_trans _ _ _ Eg E) in Hgk. discriminate. }
        rewrite Hnone. cbn [app List.map]. unfold nansum. cbn [List.fold_left].
        repeat split; auto. exists ir. split; [apply in_or_app; simpl; auto|reflexivity].
    + intros x Hx Hk. apply in_app_or in Hx as [Hx|[<-|[]]].
      * destruct (Hall x Hx Hk) as (g & Hg & Eg).
        destruct (add_to_group_keeps k (get ir.2 c1) (get ir.2 c2) groups g Hg)
          as (g' & Hg' & E').
        exists g'. rewrite E'. auto.
      * apply add_to_group_has.
Qed.

Lemma group_rows_aggregated (df : DataFrame) :
  aggregated df (group_rows key c1 c2 df).
Proof.
  unfold group_rows. induction df as [|ir df IH] using rev_ind.
  - refine (conj _ (conj _ _)); [constructor| |]; intros ? [].
  - rewrite fold_left_app. simpl. apply aggregated_step, IH.
Qed.

Lemma distinct_keys_unique (groups : list Group) :
  distinct_keys groups ->
  NoDup groups /\
  forall g g', In g groups -> In g' groups ->
               cell_eqb (group_key g) (group_key g') = true -> g = g'.
Proof.
  induction 1 as [|g groups Hg _ [IH1 IH2]].
  - split; [constructor|intros ? ? []].
  - rewrite List.Forall_forall in Hg. split.
    + constructor; [|exact IH1]. rewrite list_elem_of_In. intros H.
      specialize (Hg g H). rewrite cell_eqb_refl in Hg. discriminate.
    + intros x y [<-|Hx] [<-|Hy] E; auto.
      * rewrite (Hg y Hy) in E. discriminate.
      * rewrite cell_eqb_sym, (Hg x Hx) in E. discriminate.
Qed.

End GroupByFacts.

Lemma In_subset (m : Mapping) (selected_states : list cell) (df : DataFrame)
    (ir : nat * row) :
  In ir (subset m selected_states df) <->
  In ir df /\ isin selected_states (get ir.2 (state_col m)) = true.
Proof. unfold subset. apply filter_In. Qed.

Lemma grouped_aggregated (m : Mapping) (selected_states : list cell) (df : DataFrame) :
  let rows := subset m selected_states df in
  let groups := group_rows (state_col m) (poverty_col m) (millionaire_col m) rows in
  Permutation (grouped m selected_states df) groups /\
  (forall g, In g (grouped m selected_states df) <-> In g groups).
Proof.
  cbv zeta. unfold grouped, groupby_sum. split.
  - apply stable_sort_Permutation.
  - intros g. apply In_stable_sort.
Qed.

Lemma sorted_strict (groups : list Group) :
  StronglySorted (key_le group_key) groups ->
  NoDup groups ->
  (forall g g', In g groups -> In g' groups ->
                cell_eqb (group_key g) (group_key g') = true -> g = g') ->
  StronglySorted cell_lt (List.map group_key groups).
Proof.
  induction 1 as [|a t Hs IH Ha]; intros Hnd Huniq; simpl; [constructor|].
  apply NoDup_cons in Hnd as [Hfresh Hnd].
  constructor.
  - apply IH; [exact Hnd|]. intros g g' Hg Hg'. apply Huniq; right; assumption.
  - rewrite List.Forall_forall in *. intros k Hk.
    apply in_map_iff in Hk as (b & <- & Hb).
    split; [apply Ha, Hb|].
    destruct (cell_eqb (group_key a) (group_key b)) eqn:E; [|reflexivity].
    exfalso. apply Hfresh, list_elem_of_In.
    rewrite (Huniq a b (or_introl eq_refl) (or_intror Hb) E). exact Hb.
Qed.



(** The aggregate of the sample: Ohio before Texas, the two Texas rows
    summed. *)
Lemma grouped_sample :
  grouped std_mapping [Str "Texas"; Str "Ohio"]
    (cleaned parse_unsigned std_mapping sample_rows) =
  [ {| group_key := Str "Ohio"; poverty_sum := 100; millionaire_sum := 5 |};
    {| group_key := Str "Texas"; poverty_sum := 155; millionaire_sum := 21 |} ].
Proof. vm_compute. reflexivity. Qed.

Lemma grouped_sorted_by_state_aux (m : Mapping) (selected_states : list cell)
    (df : DataFrame) :
  StronglySorted cell_lt (List.map group_key (grouped m selected_states df)).
Proof.
  destruct (grouped_aggregated m selected_states df) as [Hperm Hin].
  destruct (group_rows_aggregated (state_col m) (poverty_col m) (millionaire_col m)
              (subset m selected_states df)) as (Hd & Hsum & _).
  destruct (distinct_keys_unique _ Hd) as [Hnd Huniq].
  apply sorted_strict.
  - unfold grouped, groupby_sum. apply stable_sort_StronglySorted.
    rewrite List.Forall_forall. intros g Hg. apply (Hsum g Hg).
  - rewrite Hperm. exact Hnd.
  - intros g g' Hg Hg'. apply Huniq; apply Hin; assumption.
Qed.

(** On state names the order is the order of the strings. *)
Lemma grouped_names_ascending (m : Mapping) (selected_states : list cell)
    (df : DataFrame) (names : list string) :
  List.map group_key (grouped m selected_states df) = List.map Str names ->
  StronglySorted (fun s t => String.ltb s t = true) names.
Proof.
  intros E. pose proof (grouped_sorted_by_state_aux m selected_states df) as H.
  rewrite E in H. clear E.
  induction names as [|s names IH]; [constructor|].
  simpl in H. inversion H as [|? ? Hs Hh]; subst.
  constructor; [apply IH, Hs|].
  rewrite List.Forall_forall in *. intros t Ht.
  apply cell_lt_Str, Hh, in_map, Ht.
Qed.

(** C9. The groups of the comparison aggregation come out in strictly
    ascending order of their key, the state name: the order of the output
    rows is fixed by the keys alone, and for text keys it is the order of
    the names. *)
Theorem grouped_sorted_by_state (m : Mapping) (selected_states : list cell)
    (df : DataFrame) :
  StronglySorted cell_lt (List.map group_key (grouped m selected_states df)) /\
  (forall names,
     List.map group_key (grouped m selected_states df) = List.map Str names ->
     StronglySorted (fun s t => String.ltb s t = true) names).
Proof.
  split.
  - apply grouped_sorted_by_state_aux.
  - apply grouped_names_ascending.
Qed.

(** ** The scenarios of the specification *)

(** Texas and Ohio: density 0.02 and 0.01, rate 0.15 and 0.20, codes TX
    and OH. *)
Lemma scenario_texas_ohio :
  List.map (fun ir : nat * row =>
              (get ir.2 "State", get ir.2 "Millionaire_Density",
               get ir.2 "Poverty_Rate", get ir.2 "state_code"))
    (mapped_geo parse_unsigned std_mapping
       [mk_row "Texas" 1000 150 20; mk_row "Ohio" 500 100 5]) =
  [(Str "Texas", Num (20 / 1000), Num (150 / 1000), Str "TX");
   (Str "Ohio", Num (5 / 500), Num (100 / 500), Str "OH")].
Proof. vm_compute. reflexivity. Qed.

(** Atlantis is cleaned but not mapped. *)
Lemma scenario_atlantis :
  index (cleaned parse_unsigned std_mapping sample_rows) = [0; 1; 2; 3] /\
  index (mapped_geo parse_unsigned std_mapping sample_rows) = [0; 1; 2].
Proof. vm_compute. auto. Qed.

(** Selecting no state gives the warning of tab 1. *)
Lemma scenario_no_selection (m : Mapping) (df : DataFrame) :
  tab1 m [] df = Tab1Warning "Select at least one state to see the comparison.".
Proof. reflexivity. Qed.

(** * Further properties of the script *)

(** ** The sidebar defaults *)

Lemma list_index_Some (name : string) (cols : list string) (i : nat) :
  list_index name cols = Some i ->
  cols !! i = Some name /\ forall j, j < i -> cols !! j <> Some name.
Proof.
  revert i. induction cols as [|c cols IH]; intros i; simpl; [discriminate|].
  destruct (String.eqb c name) eqn:E.
  - intros [= <-]. apply String.eqb_eq in E as ->. split; [reflexivity|lia].
  - destruct (list_index name cols) as [i'|]; simpl; [|discriminate].
    intros [= <-]. destruct (IH i' eq_refl) as [H1 H2]. split; [exact H1|].
    intros [|j] Hj; simpl.
    + apply String.eqb_neq in E. congruence.
    + apply H2. lia.
Qed.

Lemma list_index_In (name : string) (cols : list string) :
  In name cols <-> exists i, list_index name cols = Some i.
Proof.
  induction cols as [|c cols IH]; simpl.
  - split; [tauto|intros [i H]; discriminate].
  - destruct (String.eqb c name) eqn:E.
    + apply String.eqb_eq in E. split; eauto.
    + apply String.eqb_neq in E. rewrite IH. split.
      * intros [H|[i ->]]; [congruence|]. simpl. eauto.
      * intros [i H]. right. destruct (list_index name cols); [eauto|discriminate].
Qed.

(** X1. When the guessed name is a column of the upload, [default_index]
    is the position of its first occurrence. *)
Theorem default_index_found (name : string) (cols : list string) :
  In name cols ->
  cols !! default_index name cols = Some name /\
  forall j, j < default_index name cols -> cols !! j <> Some name.
Proof.
  intros H. apply list_index_In in H as [i Hi].
  unfold default_index. rewrite Hi. simpl. apply list_index_Some, Hi.
Qed.

Lemma default_index_found_witness :
  ["Region"; "State"; "State Population"] !!
    default_index "State" ["Region"; "State"; "State Population"] = Some "State".
Proof.
  apply (default_index_found "State" ["Region"; "State"; "State Population"]).
  right. left. reflexivity.
Defined.

(** X2. [default_index] falls back to 0 when the guessed name is not a
    column, and it is a valid position of every non-empty column list. *)
Theorem default_index_fallback (name : string) (cols : list string) :
  (~ In name cols -> default_index name cols = 0) /\
  (cols <> [] -> default_index name cols < length cols).
Proof.
  split.
  - intros H. unfold default_index.
    destruct (list_index name cols) as [i|] eqn:E; [|reflexivity].
    exfalso. apply H, list_index_In. eauto.
  - intros Hne. unfold default_index.
    destruct (list_index name cols) as [i|] eqn:E; simpl.
    + apply list_index_Some in E as [E _]. apply lookup_lt_Some in E. exact E.
    + destruct cols; [congruence|simpl; lia].
Qed.

Lemma selectbox_default (name : string) (cols : list string) :
  cols <> [] ->
  exists c, selectbox cols (default_index name cols) = Some c /\
            In c cols /\
            (In name cols -> c = name) /\
            (~ In name cols -> cols !! 0 = Some c).
Proof.
  intros Hne. unfold selectbox.
  destruct (lookup_lt_is_Some_2 cols (default_index name cols)) as [c Hc].
  { unfold default_index.
    destruct (list_index name cols) as [i|] eqn:E; simpl.
    - apply list_index_Some in E as [E _]. apply lookup_lt_Some in E. exact E.
    - destruct cols; [congruence|simpl; lia]. }
  exists c. split; [exact Hc|]. split; [|split].
  - apply list_elem_of_In, list_elem_of_lookup_2 with (default_index name cols), Hc.
  - intros H. apply list_index_In in H as [i Hi].
    unfold default_index in Hc. rewrite Hi in Hc. simpl in Hc.
    apply list_index_Some in Hi as [Hi _]. congruence.
  - intros H. unfold default_index in Hc.
    destruct (list_index name cols) as [i|] eqn:E; [|exact Hc].
    exfalso. apply H, list_index_In. eauto.
Qed.

(** X3. For an upload that has columns, the sidebar starts from a mapping
    whose four roles all point at columns of the upload: the column of the
    guessed name when the upload has it, the first column otherwise. *)
Theorem default_mapping_columns (all_cols : list string) :
  all_cols <> [] ->
  exists m, default_mapping all_cols = Some m /\
    Forall (fun role : string * string =>
              In role.2 all_cols /\
              (In role.1 all_cols -> role.2 = role.1) /\
              (~ In role.1 all_cols -> all_cols !! 0 = Some role.2))
      [("State", state_col m);
       ("State Population", population_col m);
       ("Number in Poverty", poverty_col m);
       ("Number of Millionaires", millionaire_col m)].
Proof.
  intros Hne. unfold default_mapping.
  destruct (selectbox_default "State" all_cols Hne) as (s & -> & Hs).
  destruct (selectbox_default "State Population" all_cols Hne) as (p & -> & Hp).
  destruct (selectbox_default "Number in Poverty" all_cols Hne) as (v & -> & Hv).
  destruct (selectbox_default "Number of Millionaires" all_cols Hne) as (n & -> & Hn).
  eexists. split; [reflexivity|]. simpl.
  repeat (constructor; [assumption|]). constructor.
Qed.

Lemma default_mapping_columns_witness :
  exists m,
    default_mapping
      ["State"; "State Population"; "Number in Poverty"; "Number of Millionaires"]
    = Some m /\
    Forall (fun role : string * string =>
              In role.2 ["State"; "State Population"; "Number in Poverty";
                         "Number of Millionaires"] /\
              (In role.1 ["State"; "State Population"; "Number in Poverty";
                          "Number of Millionaires"] -> role.2 = role.1) /\
              (~ In role.1 ["State"; "State Population"; "Number in Poverty";
                            "Number of Millionaires"] ->
               ["State"; "State Population"; "Number in Poverty";
                "Number of Millionaires"] !! 0 = Some role.2))
      [("State", state_col m);
       ("State Population", population_col m);
       ("Number in Poverty", poverty_col m);
       ("Number of Millionaires", millionaire_col m)].
Proof.
  apply (default_mapping_columns
           ["State"; "State Population"; "Number in Poverty"; "Number of Millionaires"]).
  discriminate.
Defined.

(** ** What the cleaning stage keeps and what it leaves alone *)

(** X4. A row whose state cell is present and whose three mapped numeric
    cells convert to numbers is kept by the cleaning stage, under the index
    it had in the upload. *)
Theorem usable_rows_kept (parse_number : string -> option float)
    (m : Mapping) (rows : list row) (k : nat) (r : row) :
  rows !! k = Some r ->
  isna (get r (state_col m)) = false ->
  (forall col, In col [population_col m; poverty_col m; millionaire_col m] ->
               isna (to_numeric parse_number (get r col)) = false) ->
  In k (index (df_clean parse_number m (read_table rows))).
Proof.
  intros Hk Hs Hnum. apply In_index.
  exists (derive_row m (convert_row parse_number m r)).
  apply usable_row_cleaned; [exact Hk|].
  apply complete_spec. intros c Hc.
  destruct (in_dec String.string_dec c
              [population_col m; poverty_col m; millionaire_col m]) as [Hin|Hout].
  - rewrite (get_convert_row parse_number m r c Hin). apply Hnum, Hin.
  - rewrite (get_convert_row_other parse_number m r c Hout).
    destruct Hc as [<-|Hc]; [exact Hs|contradiction].
Qed.

Lemma usable_rows_kept_witness :
  In 0 (index (df_clean parse_unsigned std_mapping
                 (read_table [raw_row "Texas" "1000" "150" "20";
                              raw_row "Ohio" "n/a" "100" "5"]))).
Proof.
  apply (usable_rows_kept parse_unsigned std_mapping
           [raw_row "Texas" "1000" "150" "20"; raw_row "Ohio" "n/a" "100" "5"]
           0 (raw_row "Texas" "1000" "150" "20")).
  - reflexivity.
  - reflexivity.
  - intros col [<-|[<-|[<-|[]]]]; reflexivity.
Defined.

(** X5. Let no mapped column be named like a derived column. In every row
    of the Cleaned Table the state cell is present, the three mapped
    numeric cells are numbers that are not NaN, and the two derived cells
    are the float64 quotients millionaires / population and poverty /
    population of that row. *)
Theorem cleaned_row_values (parse_number : string -> option float)
    (m : Mapping) (df : DataFrame) (i : nat) (r : row) :
  fresh_derived m = true ->
  In (i, r) (df_clean parse_number m df) ->
  isna (get r (state_col m)) = false /\
  exists population poverty millionaires,
    get r (population_col m) = Num population /\
    get r (poverty_col m) = Num poverty /\
    get r (millionaire_col m) = Num millionaires /\
    is_nan population = false /\ is_nan poverty = false /\
    is_nan millionaires = false /\
    get r "Millionaire_Density" = Num (millionaires / population) /\
    get r "Poverty_Rate" = Num (poverty / population).
Proof.
  intros fresh Hin. apply In_df_clean in Hin as (r0 & _ & Hc & ->).
  rewrite complete_spec in Hc.
  assert (Hreq : forall c, In c (required m) ->
            get (derive_row m (convert_row parse_number m r0)) c =
            get (convert_row parse_number m r0) c)
    by (intros c Hc'; apply (get_derive_row m fresh), Hc').
  assert (Hnum : forall c, In c [population_col m; poverty_col m; millionaire_col m] ->
            exists x, get (convert_row parse_number m r0) c = Num x /\ is_nan x = false).
  { intros c Hc'.
    pose proof (Hc c (or_intror Hc')) as Hna.
    rewrite (get_convert_row parse_number m r0 c Hc') in *.
    destruct (to_numeric_Num parse_number (get r0 c)) as [x Hx].
    rewrite Hx in *. eauto. }
  destruct (Hnum (population_col m)) as (p & Hp & Hpn); [simpl; auto|].
  destruct (Hnum (poverty_col m)) as (q & Hq & Hqn); [simpl; auto|].
  destruct (Hnum (millionaire_col m)) as (n & Hn & Hnn); [simpl; auto|].
  split.
  - rewrite Hreq by (left; reflexivity). apply Hc. left. reflexivity.
  - exists p, q, n.
    rewrite !Hreq by (unfold required; simpl; auto).
    rewrite (get_Millionaire_Density m), (get_Poverty_Rate m fresh), Hp, Hq, Hn.
    repeat split; auto.
Qed.

Lemma cleaned_row_values_witness :
  isna (get (derive_row std_mapping
               (convert_row parse_unsigned std_mapping (mk_row "Texas" 1000 150 20)))
          "State") = false.
Proof.
  refine (proj1 (cleaned_row_values parse_unsigned std_mapping
                   (read_table [mk_row "Texas" 1000 150 20]) 0 _ _ _)).
  - reflexivity.
  - apply In_df_clean. exists (mk_row "Texas" 1000 150 20).
    split; [left; reflexivity|]. split; reflexivity.
Defined.

Lemma index_filter_sublist (p : nat * row -> bool) (df : DataFrame) :
  index (List.filter p df) `sublist_of` index df.
Proof.
  unfold index. induction df as [|ir df IH]; simpl; [constructor|].
  destruct (p ir); simpl; [apply sublist_skip|apply sublist_cons]; exact IH.
Qed.

Lemma index_map_row (f : row -> row) (df : DataFrame) :
  index (List.map (fun ir => (ir.1, f ir.2)) df) = index df.
Proof.
  unfold index. rewrite List.map_map. apply List.map_ext. reflexivity.
Qed.

(** X6. Cleaning and geo-coding only drop rows: the index of the Cleaned
    Table is a subsequence of the upload's index 0, 1, 2, ... and the index
    of the Mapped-Geo Table is a subsequence of the Cleaned Table's, so the
    surviving rows keep their labels and their order, and no label occurs
    twice. *)
Theorem surviving_rows_keep_order (parse_number : string -> option float)
    (m : Mapping) (rows : list row) :
  index (cleaned parse_number m rows) `sublist_of` seq 0 (length rows) /\
  index (mapped_geo parse_number m rows) `sublist_of`
    index (cleaned parse_number m rows) /\
  NoDup (index (cleaned parse_number m rows)) /\
  NoDup (index (mapped_geo parse_number m rows)).
Proof.
  assert (H1 : index (cleaned parse_number m rows) `sublist_of` seq 0 (length rows)).
  { unfold cleaned. rewrite with_state_code_rows, index_map_row, df_clean_rows,
      index_map_row.
    etransitivity; [apply index_filter_sublist|].
    rewrite index_map_row. unfold index, read_table.
    replace (List.map fst (imap (fun i (r : row) => (i, r)) rows))
      with (seq 0 (length rows)) by (symmetry; apply (index_imap rows 0)).
    reflexivity. }
  assert (H2 : index (mapped_geo parse_number m rows) `sublist_of`
               index (cleaned parse_number m rows))
    by apply index_filter_sublist.
  assert (H3 : NoDup (index (cleaned parse_number m rows)))
    by (apply (sublist_NoDup _ _ (NoDup_seq _ _) H1)).
  refine (conj H1 (conj H2 (conj H3 _))).
  apply (sublist_NoDup _ _ H3 H2).
Qed.

(** X7. The script only writes the three numeric role columns and its own
    three columns: in every row of the cleaned table, any other column
    holds exactly the cell it held in the upload. *)
Theorem other_columns_untouched (parse_number : string -> option float)
    (m : Mapping) (rows : list row) (k : nat) (r' : row) :
  In (k, r') (cleaned parse_number m rows) ->
  exists r, rows !! k = Some r /\
    forall col,
      ~ In col [population_col m; poverty_col m; millionaire_col m] ->
      ~ In col ["Millionaire_Density"; "Poverty_Rate"; "state_code"] ->
      r' !! col = r !! col.
Proof.
  intros H. apply In_cleaned in H as (r & Hk & _ & ->).
  exists r. split; [exact Hk|]. intros col Hnum Hown. simpl in Hnum, Hown.
  unfold code_row, derive_row, convert_row. simpl.
  rewrite !lookup_insert_ne by (intros E; subst; tauto). reflexivity.
Qed.

Lemma other_columns_untouched_witness :
  exists r, [mk_row "Texas" 1000 150 20] !! 0 = Some r /\
    forall col,
      ~ In col ["State Population"; "Number in Poverty"; "Number of Millionaires"] ->
      ~ In col ["Millionaire_Density"; "Poverty_Rate"; "state_code"] ->
      code_row std_mapping
        (derive_row std_mapping
           (convert_row parse_unsigned std_mapping (mk_row "Texas" 1000 150 20)))
      !! col = r !! col.
Proof.
  apply (other_columns_untouched parse_unsigned std_mapping
           [mk_row "Texas" 1000 150 20] 0).
  apply In_cleaned. exists (mk_row "Texas" 1000 150 20).
  split; [reflexivity|]. split; reflexivity.
Defined.

(** X8. Every row of the Mapped-Geo Table comes from a row of the Cleaned
    Table whose state cell is text and a key of the lookup table; its
    [state_code] is that key's two-letter code and its other columns are
    unchanged. *)
Theorem mapped_rows_have_codes (m : Mapping) (df : DataFrame) (i : nat) (r' : row) :
  In (i, r') (df_map (with_state_code m df)) ->
  exists r name code,
    In (i, r) df /\
    get r (state_col m) = Str name /\
    STATE_ABBREV !! name = Some code /\
    get r' "state_code" = Str code /\
    String.length code = 2 /\
    forall col, col <> "state_code" -> r' !! col = r !! col.
Proof.
  intros H. apply In_df_map in H as (r & Hr & -> & Hc).
  destruct (get r (state_col m)) as [x|name] eqn:Es; [discriminate Hc|].
  unfold map_dict in Hc.
  destruct (STATE_ABBREV !! name) as [code|] eqn:El; [|discriminate Hc].
  exists r, name, code. repeat split; auto.
  - unfold code_row. rewrite get_insert, Es. unfold map_dict. rewrite El. reflexivity.
  - apply (postal_code_length name code El).
  - intros col Hcol. unfold code_row. rewrite lookup_insert_ne by congruence. reflexivity.
Qed.

Lemma mapped_rows_have_codes_witness :
  exists r name code,
    In (0, r) (read_table [mk_row "Texas" 1000 150 20]) /\
    get r "State" = Str name /\
    STATE_ABBREV !! name = Some code /\
    get (code_row std_mapping (mk_row "Texas" 1000 150 20)) "state_code" = Str code /\
    String.length code = 2 /\
    forall col, col <> "state_code" ->
      code_row std_mapping (mk_row "Texas" 1000 150 20) !! col = r !! col.
Proof.
  apply (mapped_rows_have_codes std_mapping (read_table [mk_row "Texas" 1000 150 20]) 0).
  apply In_df_map. exists (mk_row "Texas" 1000 150 20).
  split; [left; reflexivity|]. split; [reflexivity|]. vm_compute. reflexivity.
Defined.

(** ** The highest and lowest rows of tabs 2 and 3 *)

(** Row [a] does not rank below row [b]: a missing key ranks last, and
    among present keys the larger ranks first. *)
#[local] Abbreviation ranks_before col :=
  (fun a b : nat * row =>
     isna (get b.2 col) = false ->
     isna (get a.2 col) = false /\ cell_leb (get b.2 col) (get a.2 col) = true).


Lemma StronglySorted_split {A : Type} (R : A -> A -> Prop) (l1 l2 : list A) :
  StronglySorted R (l1 ++ l2) -> forall x y, In x l1 -> In y l2 -> R x y.
Proof.
  induction l1 as [|a l1 IH]; simpl; intros H x y Hx Hy; [destruct Hx|].
  inversion H as [|? ? Hs Ha]; subst. destruct Hx as [<-|Hx].
  - rewrite List.Forall_forall in Ha. apply Ha, in_or_app. right. exact Hy.
  - apply (IH Hs x y Hx Hy).
Qed.



Lemma head_or_beyond (n : nat) (l : DataFrame) (y : nat * row) :
  In y l -> In y (head n l) \/ In y (skipn n l).
Proof.
  intros H. rewrite <- (firstn_skipn n l) in H. apply in_app_or in H. exact H.
Qed.

Lemma tail_or_before (n : nat) (l : DataFrame) (y : nat * row) :
  In y l -> In y (firstn (length l - n) l) \/ In y (tail n l).
Proof.
  intros H. rewrite <- (firstn_skipn (length l - n) l) in H.
  apply in_app_or in H. exact H.
Qed.

(** X9. In tab 3 the three rows of [top_high] are the highest of the
    ranked table and the three rows of [top_low] the lowest: every ranked
    row outside [top_high] has a rate no larger than each row in it, and
    every ranked row outside [top_low] a rate no smaller than each row in
    it; with three ranked rows or fewer, both lists are the whole table. *)
Theorem top_and_bottom_rates (m : Mapping) (df : DataFrame) :
  (forall x y, In x (head 3 (rate_df m df)) -> In y (rate_df m df) ->
     In y (head 3 (rate_df m df)) \/
     cell_leb (get y.2 "Poverty_Rate") (get x.2 "Poverty_Rate") = true) /\
  (forall x y, In x (tail 3 (rate_df m df)) -> In y (rate_df m df) ->
     In y (tail 3 (rate_df m df)) \/
     cell_leb (get x.2 "Poverty_Rate") (get y.2 "Poverty_Rate") = true) /\
  (length (rate_df m df) <= 3 ->
     head 3 (rate_df m df) = rate_df m df /\ tail 3 (rate_df m df) = rate_df m df).
Proof.
  pose proof (rate_df_sorted m df) as Hs.
  refine (conj _ (conj _ _)).
  - intros x y Hx Hy. destruct (head_or_beyond 3 _ y Hy) as [H|H]; [left; exact H|right].
    rewrite <- (firstn_skipn 3 (rate_df m df)) in Hs.
    apply (StronglySorted_split _ _ _ Hs x y Hx H).
  - intros x y Hx Hy. destruct (tail_or_before 3 _ y Hy) as [H|H]; [right|left; exact H].
    rewrite <- (firstn_skipn (length (rate_df m df) - 3) (rate_df m df)) in Hs.
    apply (StronglySorted_split _ _ _ Hs y x H Hx).
  - intros Hlen. unfold head, tail. split.
    + apply firstn_all2. exact Hlen.
    + replace (length (rate_df m df) - 3) with 0 by lia. reflexivity.
Qed.



Lemma last_in_tail (n : nat) (l : DataFrame) (x : nat * row) :
  0 < n -> In x (tail n (l ++ [x])).
Proof.
  intros Hn. unfold tail. rewrite length_app. simpl.
  rewrite skipn_app. apply in_or_app. right.
  replace (length l + 1 - n - length l) with 0 by lia. left. reflexivity.
Qed.

(** X11. A row of the Mapped-Geo Table whose density is missing (population
    0 and no millionaires) is not dropped before the map: when there is
    one, a row with a missing density is among the three [bottom_states]. *)
Theorem missing_density_reaches_bottom (df_map : DataFrame) :
  (exists y, In y df_map /\ isna (get y.2 "Millionaire_Density") = true) ->
  exists x,
    In x (tail 3 (sort_values_desc "Millionaire_Density" df_map)) /\
    isna (get x.2 "Millionaire_Density") = true.
Proof.
  intros (y & Hy & Hna). unfold sort_values_desc.
  set (front := rev _).
  assert (Hin : In y (List.filter
                        (fun ir : nat * row => isna (get ir.2 "Millionaire_Density"))
                        df_map))
    by (apply filter_In; auto).
  destruct (List.filter (fun ir : nat * row => isna (get ir.2 "Millionaire_Density"))
              df_map) as [|a nans] eqn:E using rev_ind; [destruct Hin|].
  exists a. split.
  - rewrite app_assoc. apply last_in_tail. lia.
  - assert (Ha : In a (List.filter
                         (fun ir : nat * row => isna (get ir.2 "Millionaire_Density"))
                         df_map))
      by (rewrite E; apply in_or_app; right; left; reflexivity).
    apply filter_In in Ha as [_ Ha]. exact Ha.
Qed.

Lemma missing_density_reaches_bottom_witness :
  exists x,
    In x (tail 3 (sort_values_desc "Millionaire_Density"
                    (mapped_geo parse_unsigned std_mapping
                       [mk_row "Texas" 1000 150 20; mk_row "Ohio" 0 100 0]))) /\
    isna (get x.2 "Millionaire_Density") = true.
Proof.
  apply (missing_density_reaches_bottom
           (mapped_geo parse_unsigned std_mapping
              [mk_row "Texas" 1000 150 20; mk_row "Ohio" 0 100 0])).
  exists (1, code_row std_mapping
               (derive_row std_mapping
                  (convert_row parse_unsigned std_mapping (mk_row "Ohio" 0 100 0)))).
  split; [|vm_compute; reflexivity].
  apply In_df_map. exists (derive_row std_mapping
                             (convert_row parse_unsigned std_mapping
                                (mk_row "Ohio" 0 100 0))).
  split; [|split; [reflexivity|vm_compute; reflexivity]].
  apply In_df_clean. exists (mk_row "Ohio" 0 100 0).
  split; [right; left; reflexivity|split; reflexivity].
Defined.



(** ** The state picker and the comparison of tab 1 *)

Lemma cell_eqb_Str (s : string) (c : cell) :
  cell_eqb (Str s) c = true -> c = Str s.
Proof.
  destruct c as [x|t]; simpl; [discriminate|].
  intros H. apply String.eqb_eq in H as ->. reflexivity.
Qed.

Lemma In_unique_from (seen cells : list cell) (c : cell) :
  In c (unique_from seen cells) -> In c cells.
Proof.
  revert seen. induction cells as [|x cells IH]; intros seen; simpl; [tauto|].
  destruct (existsb (cell_eqb x) seen).
  - intros H. right. apply (IH _ H).
  - intros [->|H]; [left; reflexivity|right; apply (IH _ H)].
Qed.

Lemma unique_from_keeps (seen cells : list cell) (c : cell) :
  In c cells ->
  (exists s, In s seen /\ cell_eqb c s = true) \/
  (exists u, In u (unique_from seen cells) /\ cell_eqb c u = true).
Proof.
  revert seen. induction cells as [|x cells IH]; intros seen; simpl; [tauto|].
  destruct (existsb (cell_eqb x) seen) eqn:E.
  - intros [->|H]; [|apply IH, H]. left. apply existsb_exists in E. exact E.
  - intros [->|H].
    + right. exists c. split; [left; reflexivity|apply cell_eqb_refl].
    + destruct (IH (x :: seen) H) as [(s & [<-|Hs] & Hc)|(u & Hu & Hc)].
      * right. exists x. split; [left; reflexivity|exact Hc].
      * left. eauto.
      * right. exists u. split; [right; exact Hu|exact Hc].
Qed.

Lemma unique_from_fresh (seen cells : list cell) (c s : cell) :
  In c (unique_from seen cells) -> In s seen -> cell_eqb c s = false.
Proof.
  revert seen. induction cells as [|x cells IH]; intros seen; simpl; [tauto|].
  destruct (existsb (cell_eqb x) seen) eqn:E; [apply IH|].
  intros [->|H] Hs.
  - destruct (cell_eqb c s) eqn:Ec; [|reflexivity].
    assert (existsb (cell_eqb c) seen = true) by (apply existsb_exists; eauto).
    congruence.
  - apply (IH (x :: seen) H). right. exact Hs.
Qed.

Lemma unique_from_NoDup (seen cells : list cell) : NoDup (unique_from seen cells).
Proof.
  revert seen. induction cells as [|x cells IH]; intros seen; simpl; [constructor|].
  destruct (existsb (cell_eqb x) seen) eqn:E; [apply IH|].
  constructor; [|apply IH]. rewrite list_elem_of_In. intros H.
  pose proof (unique_from_fresh (x :: seen) cells x x H (or_introl eq_refl)) as Hx.
  rewrite cell_eqb_refl in Hx. discriminate.
Qed.

Lemma cell_lt_NoDup (l : list cell) : StronglySorted cell_lt l -> NoDup l.
Proof.
  induction 1 as [|a l Hs IH Ha]; constructor; [|exact IH].
  rewrite list_elem_of_In. intros H. rewrite List.Forall_forall in Ha.
  destruct (Ha a H) as [_ Hne]. rewrite cell_eqb_refl in Hne. discriminate.
Qed.

Lemma cell_lt_unique (l1 l2 : list cell) :
  StronglySorted cell_lt l1 -> StronglySorted cell_lt l2 ->
  (forall c, In c l1 <-> In c l2) -> l1 = l2.
Proof.
  intros H1 H2 Hiff. apply (StronglySorted_unique_strong cell_lt); auto.
  - intros x y _ _ [Hxy Hne] [Hyx _].
    rewrite (cell_leb_antisym x y Hxy Hyx) in Hne. discriminate.
  - apply NoDup_Permutation; [apply cell_lt_NoDup, H1|apply cell_lt_NoDup, H2|].
    intros c. rewrite !list_elem_of_In. apply Hiff.
Qed.

Lemma sorted_text_strict (l : list cell) :
  NoDup l -> (forall c, In c l -> exists s, c = Str s) ->
  StronglySorted cell_lt (sorted l).
Proof.
  intros Hnd Htext. unfold sorted.
  assert (Hs : StronglySorted (key_le (fun c : cell => c))
                 (stable_sort (fun c : cell => c) l)).
  { apply stable_sort_StronglySorted. rewrite List.Forall_forall.
    intros c Hc. destruct (Htext c Hc) as [s ->]. reflexivity. }
  assert (Hnd' : NoDup (stable_sort (fun c : cell => c) l))
    by (rewrite stable_sort_Permutation; exact Hnd).
  assert (Htext' : forall c, In c (stable_sort (fun c : cell => c) l) ->
                             exists s, c = Str s)
    by (intros c Hc; apply Htext, (In_stable_sort (fun c : cell => c)), Hc).
  induction Hs as [|a t Hs IH Ha]; constructor.
  - apply NoDup_cons in Hnd' as [_ Hnd']. apply IH; [exact Hnd'|].
    intros c Hc. apply Htext'. right. exact Hc.
  - apply NoDup_cons in Hnd' as [Hfresh _].
    rewrite List.Forall_forall in *. intros b Hb. split; [apply Ha, Hb|].
    destruct (cell_eqb a b) eqn:E; [|reflexivity]. exfalso.
    destruct (Htext' a (or_introl eq_refl)) as [s ->].
    apply cell_eqb_Str in E as ->. apply Hfresh, list_elem_of_In, Hb.
Qed.

Lemma all_states_from_table (m : Mapping) (df : DataFrame) (c : cell) :
  In c (all_states m df) -> exists ir, In ir df /\ get ir.2 (state_col m) = c.
Proof.
  unfold all_states, sorted, unique. intros H.
  apply (In_stable_sort (fun c : cell => c)), In_unique_from, in_map_iff in H
    as (ir & E & H).
  eauto.
Qed.

Lemma all_states_cover (m : Mapping) (df : DataFrame) (ir : nat * row) :
  text_states m df -> In ir df -> In (get ir.2 (state_col m)) (all_states m df).
Proof.
  intros Htext Hin. unfold all_states, sorted, unique.
  apply (In_stable_sort (fun c : cell => c)).
  destruct (unique_from_keeps [] (List.map (fun ir => get ir.2 (state_col m)) df)
              (get ir.2 (state_col m)))
    as [(s & [] & _)|(u & Hu & E)].
  { apply in_map_iff. eauto. }
  destruct (Htext ir Hin) as [s Hs]. rewrite Hs in *.
  apply cell_eqb_Str in E as ->. exact Hu.
Qed.

Lemma all_states_strict (m : Mapping) (df : DataFrame) :
  text_states m df -> StronglySorted cell_lt (all_states m df).
Proof.
  intros Htext. unfold all_states. apply sorted_text_strict.
  - apply unique_from_NoDup.
  - intros c Hc. apply In_unique_from, in_map_iff in Hc as (ir & <- & Hir).
    apply (Htext ir Hir).
Qed.

(** X13. For a state column of text, the options of the state picker are
    the state names of the cleaned table, each listed once, in strictly
    ascending order. *)
Theorem all_states_options (m : Mapping) (df : DataFrame) :
  text_states m df ->
  StronglySorted cell_lt (all_states m df) /\
  forall c, In c (all_states m df) <->
            exists ir, In ir df /\ get ir.2 (state_col m) = c.
Proof.
  intros Htext. split; [apply all_states_strict, Htext|].
  intros c. split; [apply all_states_from_table|].
  intros (ir & Hir & <-). apply all_states_cover; assumption.
Qed.

Lemma sample_text_states :
  text_states std_mapping (cleaned parse_unsigned std_mapping sample_rows).
Proof.
  intros [k r'] H. apply In_cleaned in H as (r & Hk & _ & ->). cbn [snd].
  assert (E : get (code_row std_mapping
                     (derive_row std_mapping
                        (convert_row parse_unsigned std_mapping r))) "State" =
              get r "State").
  { unfold code_row, derive_row, convert_row, get.
    cbn [List.fold_left population_col poverty_col millionaire_col state_col
         std_mapping].
    rewrite !lookup_insert_ne by discriminate. reflexivity. }
  cbn [state_col std_mapping]. rewrite E.
  apply list_elem_of_lookup_2, list_elem_of_In in Hk.
  destruct Hk as [<-|[<-|[<-|[<-|[]]]]]; eexists; reflexivity.
Qed.

Lemma all_states_options_witness :
  StronglySorted cell_lt
    (all_states std_mapping (cleaned parse_unsigned std_mapping sample_rows)).
Proof.
  refine (proj1 (all_states_options std_mapping
                   (cleaned parse_unsigned std_mapping sample_rows) _)).
  exact sample_text_states.
Defined.

(** X14. Selecting every option of the picker selects the whole cleaned
    table: no row is left out of the comparison. *)
Theorem all_states_select_every_row (m : Mapping) (df : DataFrame) :
  text_states m df -> subset m (all_states m df) df = df.
Proof.
  intros Htext. unfold subset. apply filter_all. intros ir Hir.
  unfold isin. apply existsb_exists.
  exists (get ir.2 (state_col m)). split; [|apply cell_eqb_refl].
  apply all_states_cover; assumption.
Qed.

Lemma all_states_select_every_row_witness :
  subset std_mapping
    (all_states std_mapping (cleaned parse_unsigned std_mapping sample_rows))
    (cleaned parse_unsigned std_mapping sample_rows) =
  cleaned parse_unsigned std_mapping sample_rows.
Proof.
  apply (all_states_select_every_row std_mapping
           (cleaned parse_unsigned std_mapping sample_rows)).
  exact sample_text_states.
Defined.

(** The keys of the comparison are the states of the selected rows. *)
Lemma grouped_keys (m : Mapping) (selected_states : list cell) (df : DataFrame)
    (k : cell) :
  In k (List.map group_key (grouped m selected_states df)) <->
  isna k = false /\
  exists g, In g (group_rows (state_col m) (poverty_col m) (millionaire_col m)
                    (subset m selected_states df)) /\ group_key g = k.
Proof.
  destruct (grouped_aggregated m selected_states df) as [_ Hin].
  destruct (group_rows_aggregated (state_col m) (poverty_col m) (millionaire_col m)
              (subset m selected_states df)) as (_ & Hsum & _).
  rewrite in_map_iff. split.
  - intros (g & <- & Hg). apply Hin in Hg. split; [apply (Hsum g Hg)|eauto].
  - intros (_ & g & Hg & <-). exists g. split; [reflexivity|apply Hin, Hg].
Qed.

Lemma grouped_lists_selection (m : Mapping) (selected_states : list cell)
    (df : DataFrame) :
  text_states m df ->
  StronglySorted cell_lt selected_states ->
  (forall c, In c selected_states -> In c (all_states m df)) ->
  List.map group_key (grouped m selected_states df) = selected_states.
Proof.
  intros Htext Hsorted Hsel.
  destruct (group_rows_aggregated (state_col m) (poverty_col m) (millionaire_col m)
              (subset m selected_states df)) as (_ & Hsum & Hall).
  apply cell_lt_unique; [apply grouped_sorted_by_state_aux|exact Hsorted|].
  intros k. rewrite grouped_keys. split.
  - intros (_ & g & Hg & <-).
    destruct (Hsum g Hg) as (_ & (ir & Hir & E) & _).
    apply In_subset in Hir as [Hir Hs]. rewrite E in Hs.
    destruct (Htext ir Hir) as [s Es]. rewrite Es in E. rewrite <- E in *.
    unfold isin in Hs. apply existsb_exists in Hs as (v & Hv & Ev).
    apply cell_eqb_Str in Ev as ->. exact Hv.
  - intros Hk. destruct (all_states_from_table m df k (Hsel k Hk)) as (ir & Hir & E).
    destruct (Htext ir Hir) as [s Es].
    assert (Hna : isna (get ir.2 (state_col m)) = false) by (rewrite Es; reflexivity).
    assert (Hsub : In ir (subset m selected_states df)).
    { apply In_subset. split; [exact Hir|]. rewrite E.
      unfold isin. apply existsb_exists. exists k. split; [exact Hk|apply cell_eqb_refl]. }
    destruct (Hall ir Hsub Hna) as (g & Hg & Eg).
    split; [rewrite <- E; exact Hna|]. exists g. split; [exact Hg|].
    destruct (Hsum g Hg) as (_ & (ir' & Hir' & E') & _).
    apply In_subset in Hir' as [Hir' _]. destruct (Htext ir' Hir') as [t Et].
    rewrite Et in E'. rewrite <- E' in Eg. rewrite <- E'.
    apply cell_eqb_Str in Eg. congruence.
Qed.

Lemma StronglySorted_firstn {A : Type} (R : A -> A -> Prop) (n : nat) (l : list A) :
  StronglySorted R l -> StronglySorted R (firstn n l).
Proof.
  intros H. revert n. induction H as [|a l Hs IH Ha]; intros [|n]; simpl;
    try constructor.
  - apply IH.
  - rewrite List.Forall_forall in *. intros y Hy. apply Ha.
    rewrite <- (firstn_skipn n l). apply in_or_app. left. exact Hy.
Qed.

(** X15. On first load, with a state column of text and a cleaned table
    that has rows, the picker preselects the first five state names (all of
    them when there are fewer), the tab takes the chart branch, and the
    comparison lists exactly the preselected states, in that order. *)
Theorem default_selection_shown (m : Mapping) (df : DataFrame) :
  text_states m df -> df <> [] ->
  default_states m df = firstn 5 (all_states m df) /\
  default_states m df <> [] /\
  tab1 m (default_states m df) df =
    Tab1Chart (grouped m (default_states m df) df) /\
  List.map group_key (grouped m (default_states m df) df) = default_states m df.
Proof.
  intros Htext Hne.
  assert (Hdef : default_states m df = firstn 5 (all_states m df)).
  { unfold default_states. destruct (5 <=? length (all_states m df)) eqn:E;
      [reflexivity|]. apply Nat.leb_gt in E. symmetry. apply firstn_all2. lia. }
  assert (Hhas : all_states m df <> []).
  { destruct df as [|ir df]; [congruence|].
    pose proof (all_states_cover m (ir :: df) ir Htext (or_introl eq_refl)) as H.
    intros E. rewrite E in H. destruct H. }
  assert (Hsome : default_states m df <> []).
  { rewrite Hdef. destruct (all_states m df); [congruence|discriminate]. }
  refine (conj Hdef (conj Hsome (conj _ _))).
  - destruct (default_states m df); [congruence|reflexivity].
  - apply grouped_lists_selection; [exact Htext| |].
    + rewrite Hdef. apply StronglySorted_firstn, all_states_strict, Htext.
    + intros c Hc. rewrite Hdef in Hc.
      rewrite <- (firstn_skipn 5 (all_states m df)). apply in_or_app. left. exact Hc.
Qed.

Lemma default_selection_shown_witness :
  List.map group_key
    (grouped std_mapping
       (default_states std_mapping (cleaned parse_unsigned std_mapping sample_rows))
       (cleaned parse_unsigned std_mapping sample_rows)) =
  default_states std_mapping (cleaned parse_unsigned std_mapping sample_rows).
Proof.
  refine (proj2 (proj2 (proj2
            (default_selection_shown std_mapping
               (cleaned parse_unsigned std_mapping sample_rows) _ _)))).
  - exact sample_text_states.
  - intros E. apply (f_equal (@length (nat * row))) in E. vm_compute in E.
    discriminate.
Defined.

(** ** Totals of a single row, and the rows of the ranking *)

Lemma add_zero_l (x : float) :
  is_nan x = false -> PrimFloat.eqb (F64.zero + x) x = true.
Proof.
  intros Hx. apply F64Facts.not_nan_spec in Hx.
  rewrite FloatAxioms.eqb_spec, add_spec. unfold F64.zero, SFeqb.
  change (Prim2SF 0) with (S754_zero false).
  destruct (Prim2SF x) as [[]|[]| |[] mx ex] eqn:E; try congruence;
    try reflexivity; unfold SF64add, SFadd;
    rewrite F64Facts.SFcompare_refl by discriminate; reflexivity.
Qed.

Lemma grouped_sums (m : Mapping) (selected_states : list cell) (df : DataFrame)
    (g : Group) :
  In g (grouped m selected_states df) ->
  poverty_sum g =
    nansum (List.map (fun ir => get ir.2 (poverty_col m))
              (List.filter
                 (fun ir => cell_eqb (group_key g) (get ir.2 (state_col m))) df)) /\
  millionaire_sum g =
    nansum (List.map (fun ir => get ir.2 (millionaire_col m))
              (List.filter
                 (fun ir => cell_eqb (group_key g) (get ir.2 (state_col m))) df)).
Proof.
  intros Hg.
  destruct (grouped_aggregated m selected_states df) as [_ Hin].
  destruct (group_rows_aggregated (state_col m) (poverty_col m) (millionaire_col m)
              (subset m selected_states df)) as (_ & Hsum & _).
  apply Hin in Hg. destruct (Hsum g Hg) as (_ & (ir & Hir & E) & Hp & Hq).
  apply In_subset in Hir as [_ Hs]. rewrite E in Hs.
  assert (Hmem : List.filter
                   (fun ir : nat * row => cell_eqb (group_key g) (get ir.2 (state_col m)))
                   (subset m selected_states df) =
                 List.filter
                   (fun ir : nat * row => cell_eqb (group_key g) (get ir.2 (state_col m)))
                   df).
  { apply filter_filter_implied. intros x _ Ex.
    rewrite <- (isin_eqb selected_states _ _ Ex). exact Hs. }
  rewrite <- Hmem. auto.
Qed.

(** X16. A state that occurs in exactly one row of the cleaned table is
    shown in the comparison with the counts of that row: the group's two
    totals equal ([==]) the row's poverty and millionaire numbers. *)
Theorem single_row_totals (m : Mapping) (selected_states : list cell)
    (df : DataFrame) (g : Group) (ir : nat * row) (poverty millionaires : float) :
  In g (grouped m selected_states df) ->
  List.filter (fun x => cell_eqb (group_key g) (get x.2 (state_col m))) df = [ir] ->
  get ir.2 (poverty_col m) = Num poverty ->
  get ir.2 (millionaire_col m) = Num millionaires ->
  is_nan poverty = false -> is_nan millionaires = false ->
  PrimFloat.eqb (poverty_sum g) poverty = true /\
  PrimFloat.eqb (millionaire_sum g) millionaires = true.
Proof.
  intros Hg Hone Hp Hq Hpn Hqn.
  destruct (grouped_sums m selected_states df g Hg) as [-> ->].
  rewrite Hone. cbn [List.map]. rewrite Hp, Hq. unfold nansum. cbn [List.fold_left nanadd].
  rewrite Hpn, Hqn. split; apply add_zero_l; assumption.
Qed.

Lemma single_row_totals_witness :
  PrimFloat.eqb 100 100 = true /\ PrimFloat.eqb 5 5 = true.
Proof.
  apply (single_row_totals std_mapping [Str "Texas"; Str "Ohio"]
           (read_table [mk_row "Texas" 1000 150 20; mk_row "Ohio" 500 100 5;
                        mk_row "Texas" 7 5 1])
           {| group_key := Str "Ohio"; poverty_sum := 100; millionaire_sum := 5 |}
           (1, mk_row "Ohio" 500 100 5) 100 5);
    first [reflexivity | (left; reflexivity)].
Defined.

Lemma filter_partition_Permutation {A : Type} (p : A -> bool) (l : list A) :
  Permutation (List.filter (fun x => negb (p x)) l ++ List.filter p l) l.
Proof.
  induction l as [|x l IH]; simpl; [reflexivity|].
  destruct (p x); simpl.
  - rewrite <- Permutation_middle. constructor. exact IH.
  - constructor. exact IH.
Qed.

Lemma sort_values_desc_Permutation (col : string) (df : DataFrame) :
  Permutation (sort_values_desc col df) df.
Proof.
  unfold sort_values_desc.
  rewrite <- (filter_partition_Permutation
                (fun ir : nat * row => isna (get ir.2 col)) df) at 3.
  apply Permutation_app; [|reflexivity].
  rewrite <- Permutation_rev, stable_sort_Permutation, <- Permutation_rev.
  reflexivity.
Qed.

Lemma drop_duplicates_from_sublist (cols : list string) (seen : list row)
    (df : DataFrame) :
  drop_duplicates_from cols seen df `sublist_of` df.
Proof.
  revert seen. induction df as [|ir df IH]; intros seen; simpl; [constructor|].
  destruct (existsb (row_eqb cols ir.2) seen);
    [apply sublist_cons|apply sublist_skip]; apply IH.
Qed.

Lemma index_sublist (df df' : DataFrame) :
  df `sublist_of` df' -> index df `sublist_of` index df'.
Proof.
  unfold index. induction 1; simpl; [constructor|apply sublist_skip|apply sublist_cons];
    assumption.
Qed.

(** X17. The ranking never invents or repeats a row: the labels of the
    ranked table are, up to order, a subsequence of the cleaned table's
    labels, so the ranked table has at most as many rows as the cleaned
    table and lists each of its rows at most once. *)
Theorem ranking_rows_come_from_table (m : Mapping) (df : DataFrame) :
  (exists kept, Permutation (index (rate_df m df)) kept /\
                kept `sublist_of` index df) /\
  length (rate_df m df) <= length df /\
  (NoDup (index df) -> NoDup (index (rate_df m df))).
Proof.
  assert (Hsub : index (rate_rows m df) `sublist_of` index df).
  { unfold rate_rows. etransitivity.
    - apply index_sublist, drop_duplicates_from_sublist.
    - etransitivity; [apply index_filter_sublist|].
      unfold select. rewrite (index_map_row _ df). reflexivity. }
  assert (Hperm : Permutation (index (rate_df m df)) (index (rate_rows m df)))
    by (apply Permutation_map, sort_values_desc_Permutation).
  refine (conj _ (conj _ _)).
  - exists (index (rate_rows m df)). auto.
  - apply Permutation_length in Hperm. apply sublist_length in Hsub.
    unfold index in *. rewrite !length_map in *. lia.
  - intros Hnd. rewrite Hperm. apply (sublist_NoDup _ _ Hnd Hsub).
Qed.
